(** * Orbit_Vis_V1: TLE parsing and time-sampled trajectories

    A shallow embedding of [src/Orbit_Vis_V1.js]: the element-set parser
    [parseTLEText], the trajectory sampler [addSatelliteFromTLE] and the
    rendering driver [init], followed by the properties of the design
    document that concern them.

    Conventions.
    - A JavaScript string is the list of its UTF-16 code units.
    - A value that may be [undefined] is an [option]; [None] is [undefined].
    - A computation that may throw returns an [outcome]; loops that the
      source writes with [for] carry a fuel argument and return [OutOfFuel]
      when it runs out, so that termination is a theorem and not a
      convention.
    - Instants are whole seconds on the integer line. The third-party
      libraries (satellite.js, Cesium) are interfaces: a call that may
      throw returns a [completion], a result that may be [null] or
      [undefined] is an [option], and the measured length of the window
      is a library result that may fall a second short of the exact
      difference. *)

From Stdlib Require Import String Ascii.
From Stdlib Require Import List ZArith NArith Arith Bool Lia Sorted.
From Stdlib Require DecimalNat.
Import ListNotations.

Set Implicit Arguments.

(** ** JavaScript values used by the program *)

Module JS.

Definition codeunit := N.
Definition jsstring := list codeunit.

(** A string literal of the source, as code units. *)
Definition lit (s : string) : jsstring :=
  map N_of_ascii (list_ascii_of_string s).

Arguments lit s%_string.

(** [String.prototype.startsWith(p)] at position 0. *)
Fixpoint startsWith (s p : jsstring) : bool :=
  match p with
  | [] => true
  | c :: p' =>
      match s with
      | [] => false
      | d :: s' => N.eqb c d && startsWith s' p'
      end
  end.

(** ECMAScript [WhiteSpace]: TAB, VT, FF, SP, NBSP, ZWNBSP and the
    space separators (category Zs). *)
Definition isWhiteSpace (c : codeunit) : bool :=
  (N.eqb c 9 || N.eqb c 11 || N.eqb c 12 || N.eqb c 32 || N.eqb c 160
   || N.eqb c 5760 || (N.leb 8192 c && N.leb c 8202)
   || N.eqb c 8239 || N.eqb c 8287 || N.eqb c 12288 || N.eqb c 65279)%bool.

(** ECMAScript [LineTerminator]: LF, CR, LS, PS. *)
Definition isLineTerminator (c : codeunit) : bool :=
  (N.eqb c 10 || N.eqb c 13 || N.eqb c 8232 || N.eqb c 8233)%bool.

Definition isTrimmable (c : codeunit) : bool :=
  isWhiteSpace c || isLineTerminator c.

Fixpoint trimStart (s : jsstring) : jsstring :=
  match s with
  | [] => []
  | c :: s' => if isTrimmable c then trimStart s' else s
  end.

Definition trimEnd (s : jsstring) : jsstring := rev (trimStart (rev s)).

(** [String.prototype.trim]. *)
Definition trim (s : jsstring) : jsstring := trimEnd (trimStart s).

(** [text.split(/\r?\n/)]: the separator is a line feed together with
    the carriage return just before it, when there is one; [cur] holds
    the code units of the current piece, last first. *)
Fixpoint split_from (cur : jsstring) (s : jsstring) : list jsstring :=
  match s with
  | [] => [rev cur]
  | c :: s' =>
      if N.eqb c 10 then rev cur :: split_from [] s'
      else
        match s' with
        | d :: s'' =>
            if N.eqb c 13 && N.eqb d 10 then rev cur :: split_from [] s''
            else split_from (c :: cur) s'
        | [] => split_from (c :: cur) s'
        end
  end.

Definition split_lines (text : jsstring) : list jsstring := split_from [] text.

(** [Boolean(s)] for a string: the empty string is the only falsy one. *)
Definition Boolean (s : jsstring) : bool :=
  match s with [] => false | _ :: _ => true end.

(** [Number.prototype.toString] on a non-negative integer (an array
    length): its decimal digits. *)
Fixpoint uint_units (u : Decimal.uint) : jsstring :=
  match u with
  | Decimal.Nil => []
  | Decimal.D0 u' => 48%N :: uint_units u'
  | Decimal.D1 u' => 49%N :: uint_units u'
  | Decimal.D2 u' => 50%N :: uint_units u'
  | Decimal.D3 u' => 51%N :: uint_units u'
  | Decimal.D4 u' => 52%N :: uint_units u'
  | Decimal.D5 u' => 53%N :: uint_units u'
  | Decimal.D6 u' => 54%N :: uint_units u'
  | Decimal.D7 u' => 55%N :: uint_units u'
  | Decimal.D8 u' => 56%N :: uint_units u'
  | Decimal.D9 u' => 57%N :: uint_units u'
  end.

Definition Number_toString (n : nat) : jsstring := uint_units (Nat.to_uint n).

(** What a statement list can do: complete, throw, or (for a fuelled
    loop of the model) use up its fuel. *)
Inductive js_error : Type :=
| TypeError
| Error (message : jsstring)
| LibraryError (name message : jsstring).

Inductive outcome (A : Type) : Type :=
| Done (a : A)
| Throw (e : js_error)
| OutOfFuel.

Arguments Done {A} a.
Arguments Throw {A} e.
Arguments OutOfFuel {A}.

Definition bind {A B : Type} (c : outcome A) (k : A -> outcome B) : outcome B :=
  match c with
  | Done a => k a
  | Throw e => Throw e
  | OutOfFuel => OutOfFuel
  end.

(** What a call into a library can do: return, or throw. *)
Inductive completion (A : Type) : Type :=
| Returns (a : A)
| Raises (e : js_error).

Arguments Returns {A} a.
Arguments Raises {A} e.

Definition call {A : Type} (c : completion A) : outcome A :=
  match c with
  | Returns a => Done a
  | Raises e => Throw e
  end.

(** [o.startsWith(p)]: a method call on [undefined] is a [TypeError]. *)
Definition call_startsWith (o : option jsstring) (p : jsstring) : outcome bool :=
  match o with
  | Some s => Done (startsWith s p)
  | None => Throw TypeError
  end.

(** [o?.startsWith(p)]: [undefined] when [o] is. *)
Definition opt_startsWith (o : option jsstring) (p : jsstring) : option bool :=
  match o with
  | Some s => Some (startsWith s p)
  | None => None
  end.

(** Truthiness of a boolean-or-undefined. *)
Definition truthy (v : option bool) : bool :=
  match v with
  | Some b => b
  | None => false
  end.

End JS.

Import JS.

Declare Scope js_scope.
Delimit Scope js_scope with js.
Notation "x <- c ;; k" := (bind c (fun x => k))
  (at level 61, c at next level, right associativity) : js_scope.
Notation "' pat <- c ;; k" := (bind c (fun x => match x with pat => k end))
  (at level 61, pat pattern, c at next level, right associativity) : js_scope.
Open Scope js_scope.

(** ** The element-set parser: [parseTLEText] *)

Module Parser.

(** The object literal [{ name, tle1, tle2 }]; each field holds what the
    array read gave, a string or [undefined]. *)
Record ElementSet : Type := mkElementSet {
  name : option jsstring;
  tle1 : option jsstring;
  tle2 : option jsstring
}.

(** [text.split(/\r?\n/).map((l) => l.trim()).filter(Boolean)] *)
Definition normalize (text : jsstring) : list jsstring :=
  filter Boolean (map trim (split_lines text)).

(** One pass through the body of the [for] loop, from index [i] with the
    records pushed so far in [out]: the new index and the new [out]. *)
Definition loop_body (lines : list jsstring) (i : nat) (out : list ElementSet)
  : outcome (nat * list ElementSet) :=
  c1 <- call_startsWith (nth_error lines i) (lit "1 ") ;;
  if c1 && truthy (opt_startsWith (nth_error lines (i + 1)) (lit "2 ")) then
    Done (i + 2,
          out ++ [ {| name := Some (lit "SAT " ++ Number_toString (length out + 1));
                      tle1 := nth_error lines i;
                      tle2 := nth_error lines (i + 1) |} ])
  else
    c2 <- call_startsWith (nth_error lines i) (lit "1 ") ;;
    if negb c2
       && truthy (opt_startsWith (nth_error lines (i + 1)) (lit "1 "))
       && truthy (opt_startsWith (nth_error lines (i + 2)) (lit "2 ")) then
      Done (i + 3,
            out ++ [ {| name := nth_error lines i;
                        tle1 := nth_error lines (i + 1);
                        tle2 := nth_error lines (i + 2) |} ])
    else
      Done (i + 1, out).

(** [for (let i = 0; i < lines.length; ) { ... }] *)
Fixpoint scan (fuel : nat) (lines : list jsstring) (i : nat) (out : list ElementSet)
  : outcome (list ElementSet) :=
  if i <? length lines then
    match fuel with
    | O => OutOfFuel
    | S fuel' =>
        ' (i', out') <- loop_body lines i out ;;
        scan fuel' lines i' out'
    end
  else Done out.

(** The number of passes through the loop body made by [scan]. *)
Fixpoint iterations (fuel : nat) (lines : list jsstring) (i : nat) (out : list ElementSet)
  : nat :=
  if i <? length lines then
    match fuel with
    | O => 0
    | S fuel' =>
        match loop_body lines i out with
        | Done (i', out') => S (iterations fuel' lines i' out')
        | _ => 1
        end
    end
  else 0.

Definition parseLines (lines : list jsstring) : outcome (list ElementSet) :=
  scan (length lines) lines 0 [].

Definition parseTLEText (text : jsstring) : outcome (list ElementSet) :=
  parseLines (normalize text).

End Parser.

Import Parser.

(** ** Time, and the third-party libraries as interfaces *)

Module Time.

(** A Cesium [JulianDate], taken as a whole number of seconds. *)
Definition JulianDate := Z.

Definition addSeconds (d : JulianDate) (seconds : Z) : JulianDate := (d + seconds)%Z.
Definition addHours (d : JulianDate) (hours : Z) : JulianDate := (d + 3600 * hours)%Z.

(** [JulianDate.toDate]: the same instant as a JavaScript [Date]. *)
Definition toDate (d : JulianDate) : Z := d.

(** The animation window: the globals [start] and [stop]. *)
Record TimeWindow : Type := mkWindow { start : JulianDate; stop : JulianDate }.

(** [const timewindow = 2;] *)
Definition timewindow : Z := 2.

(** [start = JulianDate.now(); stop = JulianDate.addHours(start, timewindow)] *)
Definition session_window (now : JulianDate) : TimeWindow :=
  {| start := now; stop := addHours now timewindow |}.

End Time.

Import Time.

Module Lib.

(** Longitude, latitude and height, as satellite.js's geodetic result
    and as Cesium's [Cartographic]. *)
Record LonLatHeight (number : Type) : Type := mkLLH {
  longitude : number;
  latitude : number;
  height : number
}.

(** What [satellite.propagate] returns when it returns an object: its
    [position] is a vector, or is falsy ([None]) when the object reports
    no solution. *)
Record PositionAndVelocity (eci : Type) : Type := mkPositionAndVelocity {
  prop_position : option eci
}.

(** The functions of satellite.js and Cesium the program calls.
    - [secondsDifference] is the whole seconds in Cesium's measure of
      [left - right], which the loops compare their whole offsets with;
      computed in floating point, it may fall short of the exact
      difference, by one second at most, and is 0 for equal instants.
    - [propagate] returns an object, or [null] ([None]).
    - [degreesLong] and [degreesLat] throw on an angle out of range and
      [fromDegrees] throws on coordinates that give no position.
    - [getValue] is [SampledPositionProperty.getValue], [undefined]
      ([None]) when the property has no value at that time, and
      [cartesianToCartographic] is [undefined] at the centre of the
      ellipsoid. *)
Class Libraries : Type := {
  number : Type;
  num : Z -> number;
  mul : number -> number -> number;
  secondsDifference : JulianDate -> JulianDate -> Z;
  secondsDifference_upper :
    forall left right, (secondsDifference left right <= left - right)%Z;
  secondsDifference_lower :
    forall left right, (left - right - 1 <= secondsDifference left right)%Z;
  secondsDifference_same : forall d, secondsDifference d d = 0%Z;
  satrec : Type;
  eci : Type;
  twoline2satrec : option jsstring -> option jsstring -> satrec;
  propagate : satrec -> Z -> option (PositionAndVelocity eci);
  gstime : Z -> number;
  eciToGeodetic : eci -> number -> LonLatHeight number;
  degreesLong : number -> completion number;
  degreesLat : number -> completion number;
  Cartesian3 : Type;
  fromDegrees : number -> number -> number -> completion Cartesian3;
  fromRadians : number -> number -> number -> Cartesian3;
  cartesianToCartographic : Cartesian3 -> option (LonLatHeight number);
  getValue : list (JulianDate * Cartesian3) -> JulianDate -> option Cartesian3;
  typeErrorMessage : jsstring
}.

End Lib.

Import Lib.

(** ** The trajectory sampler: [addSatelliteFromTLE] *)

Module Sampler.

(** [for (let t = 0; t <= spanSec; t += stride) { body }], from [t] on.
    A [continue] in the source is a body that returns its state
    unchanged. *)
Fixpoint for_upto {S : Type} (fuel : nat) (stride spanSec : Z)
    (body : Z -> S -> outcome S) (t : Z) (st : S) : outcome S :=
  if (t <=? spanSec)%Z then
    match fuel with
    | O => OutOfFuel
    | S fuel' =>
        st' <- body t st ;;
        for_upto fuel' stride spanSec body (t + stride)%Z st'
    end
  else Done st.

(** Passes of a loop from 0 to [spanSec] by [stride]. *)
Definition passes (stride spanSec : Z) : nat := Z.to_nat (spanSec / stride + 1).

Section WithLibraries.

Context {L : Libraries}.

(** A [SampledPositionProperty]: the samples in the order [addSample]
    received them. *)
Definition SampledPositionProperty : Type := list (JulianDate * Cartesian3).

Definition addSample (position : SampledPositionProperty)
    (time : JulianDate) (value : Cartesian3) : SampledPositionProperty :=
  position ++ [(time, value)].

(** The body of the sampling loop (source lines 114 to 128): reading
    [prop.position] of [null] is a [TypeError]; a falsy position is the
    [continue]. *)
Definition sample_body (w : TimeWindow) (rec : satrec) (t : Z)
    (position : SampledPositionProperty) : outcome SampledPositionProperty :=
  let sampleTime := addSeconds (start w) t in
  let jsDate := toDate sampleTime in
  let prop := propagate rec jsDate in
  found <- match prop with
           | Some result => Done (prop_position result)
           | None => Throw TypeError
           end ;;
  match found with
  | None => Done position
  | Some pos =>
      let gmst := gstime jsDate in
      let geo := eciToGeodetic pos gmst in
      lon <- call (degreesLong (longitude geo)) ;;
      lat <- call (degreesLat (latitude geo)) ;;
      let altMeters := mul (height geo) (num 1000) in
      cart <- call (fromDegrees lon lat altMeters) ;;
      Done (addSample position sampleTime cart)
  end.

(** The part of [addSatelliteFromTLE] that builds [position]. *)
Definition sample_with (fuel : nat) (w : TimeWindow) (e : ElementSet)
  : outcome SampledPositionProperty :=
  let rec := twoline2satrec (tle1 e) (tle2 e) in
  let spanSec := secondsDifference (stop w) (start w) in
  for_upto fuel 10 spanSec (sample_body w rec) 0 [].

Definition sampleTrajectory (w : TimeWindow) (e : ElementSet)
  : outcome SampledPositionProperty :=
  sample_with (passes 10 (secondsDifference (stop w) (start w))) w e.

(** The body of the ground-track loop (source lines 182 to 191):
    [position] is [ent.position]. *)
Definition track_body (w : TimeWindow) (position : option SampledPositionProperty)
    (t : Z) (samples : list Cartesian3) : outcome (list Cartesian3) :=
  let time := addSeconds (start w) t in
  p <- match position with
       | Some p => Done p
       | None => Throw TypeError
       end ;;
  match getValue p time with
  | None => Done samples
  | Some cart =>
      carto <- match cartesianToCartographic cart with
               | Some c => Done c
               | None => Throw TypeError
               end ;;
      Done (samples ++ [fromRadians (longitude carto) (latitude carto) (num 0)])
  end.

Definition track_with (fuel : nat) (w : TimeWindow)
    (position : option SampledPositionProperty) : outcome (list Cartesian3) :=
  let spanSec := secondsDifference (stop w) (start w) in
  for_upto fuel 30 spanSec (track_body w position) 0 [].

Definition groundTrack (w : TimeWindow) (position : option SampledPositionProperty)
  : outcome (list Cartesian3) :=
  track_with (passes 30 (secondsDifference (stop w) (start w))) w position.

End WithLibraries.

End Sampler.

Import Sampler.

(** ** The rendering driver: [loadTLEsFromPublic] and [init] *)

Module Scene.

(** What [fetch] gave: a rejected promise, or a response with its [ok]
    flag, its status and its body text. *)
Inductive FetchResult : Type :=
| Rejected (e : js_error)
| Response (ok : bool) (status : nat) (text : jsstring).

(** [loadTLEsFromPublic(file)] *)
Definition loadTLEsFromPublic (file : jsstring) (res : FetchResult)
  : outcome (list ElementSet) :=
  match res with
  | Rejected e => Throw e
  | Response ok status text =>
      if negb ok then
        Throw (Error (lit "Failed to load " ++ file ++ lit ": " ++ Number_toString status))
      else parseTLEText text
  end.

(** A value inside a template literal. *)
Definition template_value (v : option jsstring) : jsstring :=
  match v with
  | Some s => s
  | None => lit "undefined"
  end.

Section WithLibraries.

Context {L : Libraries}.

(** An entity of the viewer, with the fields that carry data: its
    name, its position property, the text of its label and the
    positions of its polyline. *)
Record Entity : Type := mkEntity {
  ent_name : option jsstring;
  ent_position : option SampledPositionProperty;
  ent_label : option jsstring;
  ent_polyline : option (list Cartesian3)
}.

Inductive ConsoleEntry : Type :=
| ConsoleWarn (message : jsstring)
| ConsoleError (e : js_error).

(** The mutable state [init] acts on. *)
Record World : Type := mkWorld {
  entities : list Entity;
  trackedEntity : option Entity;
  flownTo : option (list Entity);
  console : list ConsoleEntry
}.

Definition new_world : World :=
  {| entities := []; trackedEntity := None; flownTo := None; console := [] |}.

(** Statements that act on the world and may throw; what was done
    before a throw stays done. *)
Definition M (A : Type) : Type := World -> World * outcome A.

Definition ret {A : Type} (a : A) : M A := fun w => (w, Done a).

Definition bindM {A B : Type} (c : M A) (k : A -> M B) : M B :=
  fun w =>
    match c w with
    | (w', Done a) => k a w'
    | (w', Throw e) => (w', Throw e)
    | (w', OutOfFuel) => (w', OutOfFuel)
    end.

Definition lift {A : Type} (o : outcome A) : M A := fun w => (w, o).

(** [viewer.entities.add(e)] *)
Definition entities_add (e : Entity) : M Entity :=
  fun w => ({| entities := entities w ++ [e]; trackedEntity := trackedEntity w;
               flownTo := flownTo w; console := console w |}, Done e).

Definition console_log (c : ConsoleEntry) : M unit :=
  fun w => ({| entities := entities w; trackedEntity := trackedEntity w;
               flownTo := flownTo w; console := console w ++ [c] |}, Done tt).

(** [await viewer.flyTo(es)] *)
Definition flyTo (es : list Entity) : M unit :=
  fun w => ({| entities := entities w; trackedEntity := trackedEntity w;
               flownTo := Some es; console := console w |}, Done tt).

(** [viewer.trackedEntity = e] *)
Definition set_trackedEntity (e : option Entity) : M unit :=
  fun w => ({| entities := entities w; trackedEntity := e;
               flownTo := flownTo w; console := console w |}, Done tt).

(** [addSatelliteFromTLE({ name, tle1, tle2, color })] *)
Definition addSatelliteFromTLE (w : TimeWindow) (e : ElementSet) : M Entity :=
  bindM (lift (sampleTrajectory w e)) (fun position =>
  entities_add {| ent_name := name e;
                  ent_position := Some position;
                  ent_label := name e;
                  ent_polyline := None |}).

(** [tles.map((t) => addSatelliteFromTLE({ ...t, color: Color.WHITE }))] *)
Fixpoint map_tles (w : TimeWindow) (tles : list ElementSet) : M (list Entity) :=
  match tles with
  | [] => ret []
  | t :: rest =>
      bindM (addSatelliteFromTLE w t) (fun ent =>
      bindM (map_tles w rest) (fun ents =>
      ret (ent :: ents)))
  end.

(** One pass of [for (const [i, ent] of entities.entries())]. *)
Definition track_entity (w : TimeWindow) (tles : list ElementSet)
    (i : nat) (ent : Entity) : M unit :=
  bindM (lift (groundTrack w (ent_position ent))) (fun samples =>
  bindM (lift (match nth_error tles i with
               | Some t => Done (name t)
               | None => Throw TypeError
               end)) (fun tname =>
  bindM (entities_add {| ent_name := Some (template_value tname ++ lit " ground track");
                         ent_position := None;
                         ent_label := None;
                         ent_polyline := Some samples |}) (fun _ =>
  ret tt))).

Fixpoint track_entities (w : TimeWindow) (tles : list ElementSet)
    (i : nat) (ents : list Entity) : M unit :=
  match ents with
  | [] => ret tt
  | ent :: rest =>
      bindM (track_entity w tles i ent) (fun _ =>
      track_entities w tles (i + 1) rest)
  end.

(** The label-only entity shown when no element set was parsed. *)
Definition no_tles_notice : Entity :=
  {| ent_name := None; ent_position := None;
     ent_label := Some (lit "No valid TLEs found in /TLE.txt");
     ent_polyline := None |}.

(** The body of the [try] block of [init]. *)
Definition init_try (w : TimeWindow) (res : FetchResult) : M unit :=
  bindM (lift (loadTLEsFromPublic (lit "/TLE.txt") res)) (fun tles =>
  if Nat.eqb (length tles) 0 then
    bindM (console_log (ConsoleWarn (lit "No valid TLEs found in TLE.txt"))) (fun _ =>
    bindM (entities_add no_tles_notice) (fun _ =>
    ret tt))
  else
    bindM (map_tles w tles) (fun ents =>
    bindM (if negb (Nat.eqb (length ents) 0) then
             bindM (flyTo ents) (fun _ => set_trackedEntity (nth_error ents 0))
           else ret tt) (fun _ =>
    track_entities w tles 0 ents))).

(** [err.message] *)
Definition message (e : js_error) : jsstring :=
  match e with
  | TypeError => typeErrorMessage
  | Error m => m
  | LibraryError _ m => m
  end.

Definition error_notice (e : js_error) : Entity :=
  {| ent_name := None; ent_position := None;
     ent_label := Some (lit "Error: " ++ message e);
     ent_polyline := None |}.

(** [init]: the [try] block, and the [catch] block when it threw. *)
Definition init (w : TimeWindow) (res : FetchResult) : outcome World :=
  match init_try w res new_world with
  | (world, Done _) => Done world
  | (world, Throw err) =>
      Done (fst (bindM (console_log (ConsoleError err)) (fun _ =>
                 entities_add (error_notice err)) world))
  | (_, OutOfFuel) => OutOfFuel
  end.

(** A fallback notice on the globe: an entity that is a label and
    nothing else. *)
Definition fallback_notice (e : Entity) : bool :=
  match ent_label e, ent_position e, ent_polyline e with
  | Some _, None, None => true
  | _, _, _ => false
  end.


End WithLibraries.

End Scene.

Import Scene.

(** ** Vocabulary of the properties *)

Module Spec.

(** The line at index [i] exists and starts with [p]. *)
Definition line_starts (lines : list jsstring) (i : nat) (p : jsstring) : bool :=
  truthy (opt_startsWith (nth_error lines i) p).

(** A 2-line group begins at index [i]. *)
Definition pair_at (lines : list jsstring) (i : nat) : bool :=
  line_starts lines i (lit "1 ") && line_starts lines (i + 1) (lit "2 ").

(** A 3-line group (name, line 1, line 2) begins at index [i]. *)
Definition triple_at (lines : list jsstring) (i : nat) : bool :=
  negb (line_starts lines i (lit "1 "))
  && line_starts lines (i + 1) (lit "1 ")
  && line_starts lines (i + 2) (lit "2 ").

(** The record the 2-line rule pushes at index [i] after [out]. *)
Definition auto_named (lines : list jsstring) (i : nat) (out : list ElementSet)
  : ElementSet :=
  {| name := Some (lit "SAT " ++ Number_toString (length out + 1));
     tle1 := nth_error lines i;
     tle2 := nth_error lines (i + 1) |}.

(** The record the 3-line rule pushes at index [i]. *)
Definition named (lines : list jsstring) (i : nat) : ElementSet :=
  {| name := nth_error lines i;
     tle1 := nth_error lines (i + 1);
     tle2 := nth_error lines (i + 2) |}.

(** A field is present, is not the empty string, and starts with [p]. *)
Definition present_with (v : option jsstring) (p : jsstring) : Prop :=
  exists s, v = Some s /\ s <> [] /\ startsWith s p = true.

Definition present_nonempty (v : option jsstring) : Prop :=
  exists s, v = Some s /\ s <> [].

(** What the data model asks of an emitted element set. *)
Definition well_formed (e : ElementSet) : Prop :=
  present_with (tle1 e) (lit "1 ")
  /\ present_with (tle2 e) (lit "2 ")
  /\ present_nonempty (name e).

(** In the result of a parse, the record at position [k] (from 0) either
    carries the generated name ["SAT k+1"], or carries as its name a line
    of the input that does not start with ["1 "]. *)
Definition names_accounted (lines : list jsstring) (out : list ElementSet) : Prop :=
  forall k e, nth_error out k = Some e ->
    name e = Some (lit "SAT " ++ Number_toString (k + 1))
    \/ exists l, name e = Some l /\ In l lines /\ startsWith l (lit "1 ") = false.

(** The instants of a list of samples. *)
Definition times {A : Type} (samples : list (JulianDate * A)) : list JulianDate :=
  map fst samples.

(** Samples in the order of their instants, all of them in the window. *)
Definition ordered_in_window {A : Type} (w : TimeWindow)
    (samples : list (JulianDate * A)) : Prop :=
  Sorted Z.lt (times samples)
  /\ Forall (fun tm => (start w <= tm <= stop w)%Z) (times samples).

(** The offsets [0, stride, 2 * stride, ...] of [n] passes, added to [from]. *)
Definition grid (from stride : Z) (n : nat) : list Z :=
  map (fun k => (from + stride * Z.of_nat k)%Z) (seq 0 n).

(** Passes left in a loop to [spanSec] by [stride] that stands at [t]. *)
Definition remaining (stride spanSec t : Z) : nat :=
  Z.to_nat ((spanSec - t) / stride + 1).

(** What a loop whose pass at offset [t] adds [f t] to a list gathers
    over the offsets [ts], or the first throw among them. *)
Fixpoint collect {A : Type} (f : Z -> outcome (list A)) (ts : list Z)
  : outcome (list A) :=
  match ts with
  | [] => Done []
  | t :: rest =>
      x <- f t ;;
      y <- collect f rest ;;
      Done (x ++ y)
  end.

Section WithLibraries.

Context {L : Libraries}.

(** At offset [t] of the window propagation returns an object with a
    position. *)
Definition succeeds (w : TimeWindow) (rec : satrec) (t : Z) : bool :=
  match propagate rec (toDate (addSeconds (start w) t)) with
  | Some {| prop_position := Some _ |} => true
  | _ => false
  end.

(** At offset [t] propagation returns an object without position: the
    instant the loop skips. *)
Definition skipped (w : TimeWindow) (rec : satrec) (t : Z) : bool :=
  match propagate rec (toDate (addSeconds (start w) t)) with
  | Some {| prop_position := None |} => true
  | _ => false
  end.

(** The position the sampling loop stores for a propagated position [p]
    at the instant [tm] (source lines 122 to 128), when the conversions
    return. *)
Definition convert (p : eci) (tm : JulianDate) : outcome Cartesian3 :=
  let geo := eciToGeodetic p (gstime (toDate tm)) in
  lon <- call (degreesLong (longitude geo)) ;;
  lat <- call (degreesLat (latitude geo)) ;;
  call (fromDegrees lon lat (mul (height geo) (num 1000))).

(** The pass of the sampling loop at offset [t], from an empty property. *)
Definition sample_step (w : TimeWindow) (rec : satrec) (t : Z)
  : outcome SampledPositionProperty :=
  sample_body w rec t [].

(** What the sampling loop adds at offset [t] when its pass completes:
    one sample, or nothing. *)
Definition sample_at (w : TimeWindow) (rec : satrec) (t : Z)
  : SampledPositionProperty :=
  match sample_body w rec t [] with
  | Done s => s
  | _ => []
  end.

(** The pass at offset [t] stores a sample. *)
Definition stored (w : TimeWindow) (rec : satrec) (t : Z) : bool :=
  match sample_at w rec t with
  | [] => false
  | _ :: _ => true
  end.

(** The record of an element set. *)
Definition satrec_of (e : ElementSet) : satrec :=
  twoline2satrec (tle1 e) (tle2 e).

(** The trajectory and the ground track of an element set, when the
    loops complete. *)
Definition trajectory_of (w : TimeWindow) (e : ElementSet) : SampledPositionProperty :=
  match sampleTrajectory w e with
  | Done position => position
  | _ => []
  end.

Definition track_of (w : TimeWindow) (e : ElementSet) : list Cartesian3 :=
  match groundTrack w (Some (trajectory_of w e)) with
  | Done samples => samples
  | _ => []
  end.

(** The entity [addSatelliteFromTLE] adds for an element set, and the
    entity of its ground track. *)
Definition satellite_entity (w : TimeWindow) (e : ElementSet) : Entity :=
  {| ent_name := name e;
     ent_position := Some (trajectory_of w e);
     ent_label := name e;
     ent_polyline := None |}.

Definition ground_track_entity (w : TimeWindow) (e : ElementSet) : Entity :=
  {| ent_name := Some (template_value (name e) ++ lit " ground track");
     ent_position := None;
     ent_label := None;
     ent_polyline := Some (track_of w e) |}.

(** The world after [viewer.entities.add] of each of [es]. *)
Definition with_entities (es : list Entity) (world : World) : World :=
  {| entities := entities world ++ es;
     trackedEntity := trackedEntity world;
     flownTo := flownTo world;
     console := console world |}.

End WithLibraries.

End Spec.

Import Spec.

(** ** A deterministic stand-in for the libraries *)

Module Fake.

(** The value of the last sample not after [time], [d] when none. *)
Fixpoint value_before {C : Type} (samples : list (Z * C)) (time : Z) (d : C) : C :=
  match samples with
  | [] => d
  | (t, c) :: rest => if (t <=? time)%Z then value_before rest time c else d
  end.

(** A sampled property read the way Cesium reads it by default: a value
    at every instant from the first sample to the last (interpolated
    between samples), none outside (no extrapolation), none when there
    is no sample. *)
Definition range_getValue {C : Type} (samples : list (Z * C)) (time : Z) : option C :=
  match samples with
  | [] => None
  | (t0, c0) :: _ =>
      if ((t0 <=? time) && (time <=? fst (last samples (t0, c0))))%Z
      then Some (value_before samples time c0)
      else None
  end.

(** How the stand-ins report the instants [ok] refuses: by an object
    without position, or by [null]. *)
Definition falsy (ok : Z -> bool) (t : Z) : option (PositionAndVelocity Z) :=
  Some {| prop_position := if ok t then Some t else None |}.

Definition nullish (ok : Z -> bool) (t : Z) : option (PositionAndVelocity Z) :=
  if ok t then Some {| prop_position := Some t |} else None.

(** The measured length of a window: exact, or one second short. *)
Definition measure (drift : bool) (left right : Z) : Z :=
  if drift then (if (left =? right)%Z then 0 else left - right - 1)%Z
  else (left - right)%Z.

(** A library in which numbers are integers and a position is the triple
    of its coordinates: [result] is what [propagate] returns at an
    instant, [valid] tells the longitudes [fromDegrees] accepts, and
    [project] whether the cartographic projection is defined. *)
Definition make (drift : bool) (result : Z -> option (PositionAndVelocity Z))
    (valid : Z -> bool) (project : bool) : Libraries :=
  {| number := Z;
     num := fun z => z;
     mul := Z.mul;
     secondsDifference := measure drift;
     secondsDifference_upper :=
       ltac:(intros left right; unfold measure; destruct drift;
             [destruct (Z.eqb_spec left right)|]; lia);
     secondsDifference_lower :=
       ltac:(intros left right; unfold measure; destruct drift;
             [destruct (Z.eqb_spec left right)|]; lia);
     secondsDifference_same :=
       ltac:(intros d; unfold measure; destruct drift;
             [rewrite Z.eqb_refl; reflexivity | lia]);
     satrec := unit;
     eci := Z;
     twoline2satrec := fun _ _ => tt;
     propagate := fun _ t => result t;
     gstime := fun t => t;
     eciToGeodetic := fun p g => {| longitude := p; latitude := g; height := 400%Z |};
     degreesLong := fun x => Returns x;
     degreesLat := fun x => Returns x;
     Cartesian3 := (Z * Z * Z)%type;
     fromDegrees := fun lon lat alt =>
       if valid lon then Returns (lon, lat, alt)
       else Raises (LibraryError (lit "DeveloperError")
                      (lit "normalized result is not a number"));
     fromRadians := fun lon lat alt => (lon, lat, alt);
     cartesianToCartographic := fun c =>
       if project
       then Some {| longitude := fst (fst c); latitude := snd (fst c); height := snd c |}
       else None;
     getValue := range_getValue;
     typeErrorMessage := lit "undefined is not an object" |}.

(** Propagation has a position at the instants [ok] accepts and reports
    the others by an object without position. *)
Definition fake (ok : Z -> bool) : Libraries :=
  make false (falsy ok) (fun _ => true) true.

(** The same, the other instants reported by [null]. *)
Definition fake_null (ok : Z -> bool) : Libraries :=
  make false (nullish ok) (fun _ => true) true.

(** The same as [fake], the window measured one second short. *)
Definition drifting (ok : Z -> bool) : Libraries :=
  make true (falsy ok) (fun _ => true) true.

(** A library whose every position is refused by [fromDegrees]. *)
Definition not_a_number : Libraries :=
  make false (falsy (fun _ => true)) (fun _ => false) true.

(** Two bare element lines, and a named group. *)
Definition bare_pair : jsstring := lit "1 25544U 98067A
2 25544  51.6416".

Definition iss_text : jsstring := lit "ISS (ZARYA)
1 25544U 98067A
2 25544  51.6416
".

Definition iss : ElementSet :=
  {| name := Some (lit "ISS (ZARYA)");
     tle1 := Some (lit "1 25544U 98067A");
     tle2 := Some (lit "2 25544  51.6416") |}.

(** The same as [fake] with a cartographic projection that is undefined
    everywhere. *)
Definition without_projection (ok : Z -> bool) : Libraries :=
  make false (falsy ok) (fun _ => true) false.

(** A named group with the element lines of the ISS. *)
Definition iss_tle_text : jsstring := lit "ISS (ZARYA)
1 25544U 98067A   19156.50900463  .00003075  00000-0  59442-4 0  9992
2 25544  51.6433  59.2583 0008217  16.4489 347.6017 15.51174618173442
".

Definition iss_tle : ElementSet :=
  {| name := Some (lit "ISS (ZARYA)");
     tle1 := Some (lit "1 25544U 98067A   19156.50900463  .00003075  00000-0  59442-4 0  9992");
     tle2 := Some (lit "2 25544  51.6433  59.2583 0008217  16.4489 347.6017 15.51174618173442") |}.

(** Three propagators: the orbit decays [limit] seconds after the
    instant 0; a solution except between [a] and [b] (the part of an
    orbit that propagation refuses); no solution at all. *)
Definition decays_after (limit : Z) (t : Z) : bool := (t <=? limit)%Z.


Definition never (t : Z) : bool := false.

End Fake.

(** ** Vocabulary for whole files *)

Module Layout.

(** A line as [normalize] keeps it: not empty, unchanged by [trim], and
    without a line feed. *)
Definition clean (l : jsstring) : Prop :=
  l <> [] /\ trim l = l /\ ~ In 10%N l.

(** The end of a line, as a carriage return and a line feed or as a line
    feed alone. *)
Definition eol (crlf : bool) : jsstring :=
  if crlf then [13%N; 10%N] else [10%N].

(** A text with one line a row, each row ended by [eol]. *)
Definition unlines (crlf : bool) (ls : list jsstring) : jsstring :=
  flat_map (fun l => l ++ eol crlf) ls.

(** A group of a file: a bare pair of element lines, or a pair under a
    name line. *)
Inductive Group : Type :=
| Bare (l1 l2 : jsstring)
| Named (n l1 l2 : jsstring).

Definition group_lines (g : Group) : list jsstring :=
  match g with
  | Bare l1 l2 => [l1; l2]
  | Named n l1 l2 => [n; l1; l2]
  end.

Definition group_ok (g : Group) : Prop :=
  match g with
  | Bare l1 l2 =>
      startsWith l1 (lit "1 ") = true /\ startsWith l2 (lit "2 ") = true
  | Named n l1 l2 =>
      startsWith n (lit "1 ") = false
      /\ startsWith l1 (lit "1 ") = true /\ startsWith l2 (lit "2 ") = true
  end.

(** The records of a list of groups, when [k] records came before: a
    bare pair takes the generated name of its position. *)
Fixpoint records_from (k : nat) (gs : list Group) : list ElementSet :=
  match gs with
  | [] => []
  | Bare l1 l2 :: rest =>
      {| name := Some (lit "SAT " ++ Number_toString (k + 1));
         tle1 := Some l1; tle2 := Some l2 |} :: records_from (k + 1) rest
  | Named n l1 l2 :: rest =>
      {| name := Some n; tle1 := Some l1; tle2 := Some l2 |}
        :: records_from (k + 1) rest
  end.

(** Positions in a list of lines, in order and two apart at least,
    none before [from]. *)
Fixpoint spaced (from : nat) (js : list nat) : Prop :=
  match js with
  | [] => True
  | j :: rest => from <= j /\ spaced (j + 2) rest
  end.

Section WithLibraries.

Context {L : Libraries}.

(** The world [init] leaves when loading threw [e]. *)
Definition failed_world (e : js_error) : World :=
  {| entities := [error_notice e];
     trackedEntity := None;
     flownTo := None;
     console := [ConsoleError e] |}.

(** The ground-track entities added for the element sets [es], one
    after the other up to the first whose ground track does not complete,
    and whether all of them completed. *)
Fixpoint tracks_until_throw (w : TimeWindow) (es : list ElementSet)
  : list Entity * bool :=
  match es with
  | [] => ([], true)
  | e :: rest =>
      match groundTrack w (Some (trajectory_of w e)) with
      | Done _ =>
          (ground_track_entity w e :: fst (tracks_until_throw w rest),
           snd (tracks_until_throw w rest))
      | _ => ([], false)
      end
  end.

(** The world [init] leaves when element sets were loaded and every
    sampling completed: their entities, the ground tracks that completed
    and, when one did not, the error label and the console entry of the
    [catch] block. *)
Definition loaded_world (w : TimeWindow) (tles : list ElementSet) : World :=
  {| entities :=
       map (satellite_entity w) tles
       ++ fst (tracks_until_throw w tles)
       ++ (if snd (tracks_until_throw w tles) then [] else [error_notice TypeError]);
     trackedEntity := nth_error (map (satellite_entity w) tles) 0;
     flownTo := Some (map (satellite_entity w) tles);
     console :=
       if snd (tracks_until_throw w tles) then [] else [ConsoleError TypeError] |}.

(** The entities added for the element sets [es], one after the other
    up to the first whose sampling throws, and what it threw. *)
Fixpoint sats_until_throw (w : TimeWindow) (es : list ElementSet)
  : list Entity * option js_error :=
  match es with
  | [] => ([], None)
  | e :: rest =>
      match sampleTrajectory w e with
      | Done _ =>
          (satellite_entity w e :: fst (sats_until_throw w rest),
           snd (sats_until_throw w rest))
      | Throw err => ([], Some err)
      | OutOfFuel => ([], None)
      end
  end.

(** The world [init] leaves when element sets were loaded and the
    sampling of one of them threw [err] after [sats] were added. *)
Definition interrupted_world (sats : list Entity) (err : js_error) : World :=
  {| entities := sats ++ [error_notice err];
     trackedEntity := None;
     flownTo := None;
     console := [ConsoleError err] |}.

(** The world [init] leaves when element sets were loaded. *)
Definition scene_after_load (w : TimeWindow) (tles : list ElementSet) : World :=
  match snd (sats_until_throw w tles) with
  | Some err => interrupted_world (fst (sats_until_throw w tles)) err
  | None => loaded_world w tles
  end.

End WithLibraries.

End Layout.

Import Layout.

(** * Properties *)

(** ** The parser *)

Section ParserFacts.

Variable lines : list jsstring.

Lemma line_starts_missing (i : nat) (p : jsstring) :
  length lines <= i -> line_starts lines i p = false.
Proof.
  intros Hi. unfold line_starts.
  rewrite (proj2 (nth_error_None lines i) Hi). reflexivity.
Qed.

Lemma line_starts_some (i : nat) (p : jsstring) :
  line_starts lines i p = true ->
  exists l, nth_error lines i = Some l /\ startsWith l p = true.
Proof.
  unfold line_starts. destruct (nth_error lines i) as [l|]; simpl.
  - intros H. exists l. split; [reflexivity | exact H].
  - discriminate.
Qed.

(** The body of the loop, by cases on the two patterns: inside the
    array it never throws. *)
Lemma loop_body_eq (i : nat) (out : list ElementSet) :
  i < length lines ->
  loop_body lines i out =
    Done (if pair_at lines i then (i + 2, out ++ [auto_named lines i out])
          else if triple_at lines i then (i + 3, out ++ [named lines i])
          else (i + 1, out)).
Proof.
  intros Hi. unfold loop_body, pair_at, triple_at, line_starts, auto_named, named.
  destruct (nth_error lines i) as [l|] eqn:El.
  - simpl.
    destruct (startsWith l (lit "1 ")); simpl.
    + destruct (truthy (opt_startsWith (nth_error lines (i + 1)) (lit "2 ")));
        reflexivity.
    + destruct (truthy (opt_startsWith (nth_error lines (i + 1)) (lit "1 ")));
        simpl; [|reflexivity].
      destruct (truthy (opt_startsWith (nth_error lines (i + 2)) (lit "2 ")));
        reflexivity.
  - apply nth_error_None in El. lia.
Qed.

(** Each pass moves the index forward, by 2 or 3 with one record pushed,
    by 1 with none. *)
Lemma loop_body_advances (i : nat) (out : list ElementSet) :
  i < length lines ->
  exists i' out', loop_body lines i out = Done (i', out')
    /\ ((i' = i + 1 /\ out' = out)
        \/ (i' = i + 2 /\ out' = out ++ [auto_named lines i out])
        \/ (i' = i + 3 /\ out' = out ++ [named lines i])).
Proof.
  intros Hi. rewrite (loop_body_eq out Hi).
  destruct (pair_at lines i); [|destruct (triple_at lines i)];
    eexists; eexists; (split; [reflexivity|]); auto.
Qed.

(** With fuel for every remaining line the scan completes, within that
    many passes. *)
Lemma scan_completes (fuel : nat) :
  forall i out, length lines - i <= fuel ->
    exists res, scan fuel lines i out = Done res
                /\ iterations fuel lines i out <= length lines - i.
Proof.
  induction fuel as [|fuel IH]; intros i out Hf.
  - simpl. destruct (Nat.ltb_spec i (length lines)); [lia|].
    exists out. split; [reflexivity | lia].
  - simpl. destruct (Nat.ltb_spec i (length lines)) as [Hi|Hi].
    + destruct (loop_body_advances out Hi) as (i' & out' & E & Hadv).
      rewrite E. simpl.
      destruct (IH i' out') as (res & Er & Hit); [lia|].
      exists res. split; [exact Er | lia].
    + exists out. split; [reflexivity | lia].
Qed.

(** A property of the records pushed so far that every pass keeps holds
    of the result. *)
Lemma scan_invariant (P : list ElementSet -> Prop) :
  (forall i out, i < length lines -> P out ->
     (pair_at lines i = true -> P (out ++ [auto_named lines i out]))
     /\ (pair_at lines i = false -> triple_at lines i = true ->
         P (out ++ [named lines i]))) ->
  forall fuel i out res, P out -> scan fuel lines i out = Done res -> P res.
Proof.
  intros Hstep. induction fuel as [|fuel IH]; intros i out res HP; simpl.
  - destruct (Nat.ltb_spec i (length lines)); [discriminate|].
    intros E. injection E as <-. exact HP.
  - destruct (Nat.ltb_spec i (length lines)) as [Hi|Hi].
    + rewrite (loop_body_eq out Hi). simpl.
      destruct (Hstep i out Hi HP) as [Hp Ht].
      destruct (pair_at lines i) eqn:Ep.
      * apply IH. apply Hp. reflexivity.
      * destruct (triple_at lines i) eqn:Et.
        -- apply IH. apply Ht; reflexivity.
        -- apply IH. exact HP.
    + intros E. injection E as <-. exact HP.
Qed.

End ParserFacts.

(** Every line that survives [filter(Boolean)] is a non-empty string. *)
Lemma normalize_nonempty (text : jsstring) :
  Forall (fun l => l <> []) (normalize text).
Proof.
  unfold normalize. apply Forall_forall. intros l Hl.
  apply filter_In in Hl. destruct Hl as [_ Hb].
  destruct l; [discriminate | discriminate].
Qed.

Lemma startsWith_nonempty (s p : jsstring) :
  p <> [] -> startsWith s p = true -> s <> [].
Proof.
  intros Hp H. destruct p; [congruence|]. destruct s; [discriminate | discriminate].
Qed.

Lemma names_accounted_scan (lines : list jsstring) (fuel i : nat)
    (out res : list ElementSet) :
  names_accounted lines out -> scan fuel lines i out = Done res ->
  names_accounted lines res.
Proof.
  apply scan_invariant. clear. intros i out Hi HP. split.
  - intros _ k e Hk.
    destruct (Nat.lt_ge_cases k (length out)) as [Hlt|Hge].
    + rewrite nth_error_app1 in Hk by exact Hlt. apply HP. exact Hk.
    + rewrite nth_error_app2 in Hk by exact Hge.
      destruct (k - length out) as [|d] eqn:Ed; simpl in Hk.
      * injection Hk as <-. left. simpl.
        replace (length out + 1) with (k + 1) by lia. reflexivity.
      * destruct d; discriminate.
  - intros _ Ht k e Hk.
    destruct (Nat.lt_ge_cases k (length out)) as [Hlt|Hge].
    + rewrite nth_error_app1 in Hk by exact Hlt. apply HP. exact Hk.
    + rewrite nth_error_app2 in Hk by exact Hge.
      destruct (k - length out) as [|d] eqn:Ed; simpl in Hk.
      * injection Hk as <-. right. simpl.
        unfold triple_at, line_starts in Ht.
        destruct (nth_error lines i) as [l|] eqn:El.
        -- exists l. split; [reflexivity|]. split.
           ++ eapply nth_error_In. exact El.
           ++ simpl in Ht. destruct (startsWith l (lit "1 ")); [discriminate | reflexivity].
        -- apply nth_error_None in El. lia.
      * destruct d; discriminate.
Qed.

(** C1: when the normalized lines are exactly a line starting with "1 "
    followed by a line starting with "2 ", [parseTLEText] returns exactly
    one element set, named "SAT 1", with these two lines; in general the
    2-line rule names the record it pushes "SAT k", where k is the number
    of records pushed so far with this one, and in a finished parse every
    generated name at position k (from 1) is "SAT k". *)
Theorem C1_bare_pair_is_SAT_k :
  (forall text l1 l2,
      normalize text = [l1; l2] ->
      startsWith l1 (lit "1 ") = true ->
      startsWith l2 (lit "2 ") = true ->
      parseTLEText text =
        Done [ {| name := Some (lit "SAT 1"); tle1 := Some l1; tle2 := Some l2 |} ])
  /\ (forall lines i out,
        i < length lines -> pair_at lines i = true ->
        loop_body lines i out = Done (i + 2, out ++ [auto_named lines i out])
        /\ name (auto_named lines i out) =
             Some (lit "SAT " ++ Number_toString (length (out ++ [auto_named lines i out]))))
  /\ (forall text out,
        parseTLEText text = Done out -> names_accounted (normalize text) out).
Proof.
  split; [|split].
  - intros text l1 l2 Hn H1 H2. unfold parseTLEText, parseLines. rewrite Hn.
    assert (Hp : pair_at [l1; l2] 0 = true).
    { unfold pair_at, line_starts. simpl nth_error. simpl truthy.
      rewrite H1, H2. reflexivity. }
    cbn [scan length Nat.ltb Nat.leb]. rewrite loop_body_eq by (simpl; lia).
    rewrite Hp. reflexivity.
  - intros lines i out Hi Hp. split.
    + rewrite loop_body_eq by exact Hi. rewrite Hp. reflexivity.
    + rewrite length_app. reflexivity.
  - intros text out H. unfold parseTLEText, parseLines in H.
    eapply names_accounted_scan; [|exact H].
    intros k e Hk. destruct k; discriminate.
Qed.

Lemma C1_bare_pair_witness :
  parseTLEText Fake.bare_pair =
    Done [ {| name := Some (lit "SAT 1");
              tle1 := Some (lit "1 25544U 98067A");
              tle2 := Some (lit "2 25544  51.6416") |} ].
Proof.
  apply (proj1 C1_bare_pair_is_SAT_k Fake.bare_pair); reflexivity.
Defined.

(** C2: when the normalized lines are a line not starting with "1 ", then
    a line starting with "1 ", then a line starting with "2 ",
    [parseTLEText] returns one element set whose name is the first line
    and whose two element lines are the next two; the 3-line rule moves
    the scan forward by 3 lines. *)
Theorem C2_named_group :
  (forall text n l1 l2,
      normalize text = [n; l1; l2] ->
      startsWith n (lit "1 ") = false ->
      startsWith l1 (lit "1 ") = true ->
      startsWith l2 (lit "2 ") = true ->
      parseTLEText text =
        Done [ {| name := Some n; tle1 := Some l1; tle2 := Some l2 |} ])
  /\ (forall lines i out,
        i < length lines -> triple_at lines i = true ->
        loop_body lines i out = Done (i + 3, out ++ [named lines i])).
Proof.
  assert (Hexcl : forall lines i, triple_at lines i = true -> pair_at lines i = false).
  { intros lines i. unfold triple_at, pair_at.
    destruct (line_starts lines i (lit "1 ")); [discriminate | reflexivity]. }
  split.
  - intros text n l1 l2 Hn H0 H1 H2. unfold parseTLEText, parseLines. rewrite Hn.
    assert (Ht : triple_at [n; l1; l2] 0 = true).
    { unfold triple_at, line_starts. simpl nth_error. simpl truthy.
      rewrite H0, H1, H2. reflexivity. }
    cbn [scan length Nat.ltb Nat.leb]. rewrite loop_body_eq by (simpl; lia).
    rewrite (Hexcl _ _ Ht), Ht. reflexivity.
  - intros lines i out Hi Ht.
    rewrite loop_body_eq by exact Hi. rewrite (Hexcl _ _ Ht), Ht. reflexivity.
Qed.

Lemma C2_named_group_witness :
  parseTLEText Fake.iss_text = Done [Fake.iss].
Proof.
  apply (proj1 C2_named_group Fake.iss_text); reflexivity.
Defined.

(** C6: [parseTLEText] never throws. A lookahead read past the end of the
    line list counts as a line that does not match; inside the list the
    loop body completes; on the last line nothing is emitted, and with one
    line left after the current one the 3-line rule cannot fire; every
    parse returns a list, and it is the empty list when no group starts
    anywhere. *)
Theorem C6_parse_never_throws :
  (forall lines i p, length lines <= i -> line_starts lines i p = false)
  /\ (forall lines i out, i < length lines ->
        exists i' out', loop_body lines i out = Done (i', out'))
  /\ (forall lines i out, i + 1 = length lines ->
        loop_body lines i out = Done (i + 1, out))
  /\ (forall lines i, length lines <= i + 2 -> triple_at lines i = false)
  /\ (forall text, exists out, parseTLEText text = Done out)
  /\ (forall text,
        (forall i, pair_at (normalize text) i = false
                   /\ triple_at (normalize text) i = false) ->
        parseTLEText text = Done []).
Proof.
  split; [|split; [|split; [|split; [|split]]]].
  - intros lines i p. apply line_starts_missing.
  - intros lines i out Hi.
    destruct (loop_body_advances lines out Hi) as (i' & out' & E & _).
    exists i', out'. exact E.
  - intros lines i out Hi. rewrite loop_body_eq by lia.
    assert (Hm : forall p, line_starts lines (i + 1) p = false)
      by (intros p; apply line_starts_missing; lia).
    unfold pair_at, triple_at. rewrite !Hm, !andb_false_r. reflexivity.
  - intros lines i Hi. unfold triple_at.
    rewrite (line_starts_missing lines (i := i + 2)) by lia.
    apply andb_false_r.
  - intros text. unfold parseTLEText, parseLines.
    destruct (@scan_completes (normalize text) (length (normalize text)) 0 [])
      as (res & E & _); [lia|].
    exists res. exact E.
  - intros text Hnone. unfold parseTLEText, parseLines.
    destruct (@scan_completes (normalize text) (length (normalize text)) 0 [])
      as (res & E & _); [lia|].
    rewrite E. f_equal.
    apply (@scan_invariant (normalize text) (fun out => out = []))
      with (2 := eq_refl) (3 := E).
    intros i out _ _. destruct (Hnone i) as [Hp Ht]. split.
    + rewrite Hp. discriminate.
    + rewrite Ht. discriminate.
Qed.

Lemma C6_parse_never_throws_witness :
  parseTLEText (lit "# no element sets here
2 dangling second line
1 dangling first line") = Done [].
Proof.
  apply (proj2 (proj2 (proj2 (proj2 (proj2 C6_parse_never_throws))))).
  intros i.
  destruct i as [|[|[|[|i]]]]; split; reflexivity.
Defined.

(** C7: every element set [parseTLEText] returns, on every text, has its
    first element line present, not empty and starting with "1 ", its
    second present, not empty and starting with "2 ", and a name that is
    present and not empty. *)
Theorem C7_emitted_well_formed :
  forall text, exists out,
    parseTLEText text = Done out /\ Forall well_formed out.
Proof.
  intros text.
  unfold parseTLEText, parseLines.
  destruct (@scan_completes (normalize text) (length (normalize text)) 0 [])
    as (out & E & _); [lia|].
  exists out. split; [exact E|].
  pose proof (normalize_nonempty text) as Hne.
  set (lines := normalize text) in *.
  revert E. apply scan_invariant; [|constructor].
  assert (Hfield : forall j p, p <> [] -> line_starts lines j p = true ->
                               present_with (nth_error lines j) p).
  { intros j p Hp H. apply line_starts_some in H. destruct H as (l & El & Hl).
    exists l. split; [exact El|]. split; [|exact Hl].
    eapply startsWith_nonempty; eassumption. }
  intros i out0 Hi HP. split.
  - intros Hp. apply Forall_app. split; [exact HP|]. constructor; [|constructor].
    unfold pair_at in Hp. apply andb_true_iff in Hp. destruct Hp as [H1 H2].
    unfold well_formed, auto_named; simpl. split; [|split].
    + apply Hfield; [discriminate | exact H1].
    + apply Hfield; [discriminate | exact H2].
    + eexists. split; [reflexivity | discriminate].
  - intros _ Ht. apply Forall_app. split; [exact HP|]. constructor; [|constructor].
    unfold triple_at in Ht. apply andb_true_iff in Ht. destruct Ht as [Ht H2].
    apply andb_true_iff in Ht. destruct Ht as [_ H1].
    unfold well_formed, named; simpl. split; [|split].
    + apply Hfield; [discriminate | exact H1].
    + apply Hfield; [discriminate | exact H2].
    + destruct (nth_error lines i) as [l|] eqn:El.
      * exists l. split; [reflexivity|].
        eapply (proj1 (Forall_forall _ lines) Hne). eapply nth_error_In. exact El.
      * apply nth_error_None in El. lia.
Qed.

(** C10: [parseTLEText] terminates on every text. Each pass of the scan
    loop moves the index forward by at least 1 (by 2 or 3 when it pushes a
    record, by 1 when it does not), so from index [i] the loop completes
    with fuel for the remaining lines, in at most that many passes; a
    whole parse makes at most as many passes as there are normalized
    lines. *)
Theorem C10_parse_terminates :
  (forall lines i out, i < length lines ->
      exists i' out', loop_body lines i out = Done (i', out')
        /\ ((i' = i + 1 /\ length out' = length out)
            \/ (i' = i + 2 /\ length out' = length out + 1)
            \/ (i' = i + 3 /\ length out' = length out + 1)))
  /\ (forall lines fuel i out, length lines - i <= fuel ->
        exists res, scan fuel lines i out = Done res
                    /\ iterations fuel lines i out <= length lines - i)
  /\ (forall text,
        (exists out, parseTLEText text = Done out)
        /\ iterations (length (normalize text)) (normalize text) 0 []
           <= length (normalize text)).
Proof.
  split; [|split].
  - intros lines i out Hi.
    destruct (loop_body_advances lines out Hi) as (i' & out' & E & Hadv).
    exists i', out'. split; [exact E|].
    destruct Hadv as [[-> ->]|[[-> ->]|[-> ->]]]; rewrite ?length_app; simpl; auto.
  - intros lines fuel i out. apply (@scan_completes lines fuel i out).
  - intros text.
    destruct (@scan_completes (normalize text) (length (normalize text)) 0 [])
      as (res & E & Hit); [lia|].
    split; [exists res; exact E | lia].
Qed.

(** ** Counted loops *)

Section Grid.

Lemma grid_succ (from stride : Z) (n : nat) :
  grid from stride (S n) = from :: grid (from + stride) stride n.
Proof.
  unfold grid. simpl. f_equal.
  - lia.
  - rewrite <- seq_shift, map_map. apply map_ext. intros k. lia.
Qed.

Lemma grid_app (from stride : Z) (n m : nat) :
  grid from stride (n + m) = grid from stride n ++ grid (from + stride * Z.of_nat n) stride m.
Proof.
  revert from. induction n as [|n IH]; intros from.
  - simpl. f_equal. lia.
  - change (S n + m) with (S (n + m)). rewrite !grid_succ, IH. simpl.
    do 3 f_equal. lia.
Qed.

Lemma grid_In (from stride : Z) (n : nat) (t : Z) :
  In t (grid from stride n) <->
  exists k, (k < n)%nat /\ t = (from + stride * Z.of_nat k)%Z.
Proof.
  unfold grid. rewrite in_map_iff. split.
  - intros (k & E & Hk). apply in_seq in Hk. exists k. split; [lia | congruence].
  - intros (k & Hk & E). exists k. split; [congruence | apply in_seq; lia].
Qed.

Lemma grid_map_add (a from stride : Z) (n : nat) :
  map (fun t => (a + t)%Z) (grid from stride n) = grid (a + from) stride n.
Proof.
  unfold grid. rewrite map_map. apply map_ext. intros k. lia.
Qed.

Lemma grid_length (from stride : Z) (n : nat) : length (grid from stride n) = n.
Proof. unfold grid. rewrite length_map, length_seq. reflexivity. Qed.

Lemma grid_sorted (from stride : Z) (n : nat) :
  (0 < stride)%Z -> StronglySorted Z.lt (grid from stride n).
Proof.
  intros Hs. revert from. induction n as [|n IH]; intros from.
  - constructor.
  - rewrite grid_succ. constructor; [apply IH|].
    apply Forall_forall. intros t Ht. apply grid_In in Ht.
    destruct Ht as (k & _ & ->). nia.
Qed.

Variables stride spanSec : Z.
Hypothesis stride_pos : (0 < stride)%Z.

Lemma remaining_in (t : Z) :
  (t <= spanSec)%Z ->
  remaining stride spanSec t = S (remaining stride spanSec (t + stride)).
Proof.
  intros Ht. unfold remaining.
  replace (spanSec - (t + stride))%Z with (spanSec - t + (-1) * stride)%Z by lia.
  rewrite Z.div_add by lia.
  assert (0 <= (spanSec - t) / stride)%Z by (apply Z.div_pos; lia).
  lia.
Qed.

Lemma remaining_out (t : Z) :
  (spanSec < t)%Z -> remaining stride spanSec t = 0.
Proof.
  intros Ht. unfold remaining.
  assert ((spanSec - t) / stride < 0)%Z by (apply Z.div_lt_upper_bound; lia).
  lia.
Qed.

Lemma remaining_0 : remaining stride spanSec 0 = passes stride spanSec.
Proof. unfold remaining, passes. rewrite Z.sub_0_r. reflexivity. Qed.

(** The offsets of the loop lie between 0 and [spanSec]. *)
Lemma grid_within (t : Z) :
  In t (grid 0 stride (passes stride spanSec)) -> (0 <= t <= spanSec)%Z.
Proof.
  intros Ht. apply grid_In in Ht. destruct Ht as (k & Hk & ->).
  unfold passes in Hk.
  assert (Z.of_nat k <= spanSec / stride)%Z by lia.
  assert (stride * (spanSec / stride) <= spanSec)%Z.
  { apply Z.mul_div_le. lia. }
  nia.
Qed.

Variable A : Type.
Variable body : Z -> list A -> outcome (list A).

(** A loop whose body adds at most one element a pass returns at most
    one element for each pass. *)
Lemma for_upto_length :
  (forall t st st', body t st = Done st' -> length st' <= length st + 1) ->
  forall fuel t st res,
    for_upto fuel stride spanSec body t st = Done res ->
    length res <= length st + remaining stride spanSec t.
Proof.
  intros Hbody. induction fuel as [|fuel IH]; intros t st res; simpl.
  - destruct (Z.leb_spec t spanSec) as [Ht|Ht]; [discriminate|].
    intros E. injection E as <-. lia.
  - destruct (Z.leb_spec t spanSec) as [Ht|Ht].
    + rewrite remaining_in by exact Ht.
      destruct (body t st) as [st'| |] eqn:Eb; simpl; try discriminate.
      intros E. apply IH in E. apply Hbody in Eb. lia.
    + intros E. injection E as <-. lia.
Qed.

End Grid.

Section LoopFacts.

Variables stride spanSec : Z.
Hypothesis stride_pos : (0 < stride)%Z.
Variable A : Type.
Variable body : Z -> A -> outcome A.

(** A property of the state that the body keeps at every offset the loop
    visits holds of the result. *)
Lemma for_upto_inv (I : A -> Prop) :
  forall fuel t st res,
    (forall u s s', In u (grid t stride (remaining stride spanSec t)) ->
                    I s -> body u s = Done s' -> I s') ->
    I st ->
    for_upto fuel stride spanSec body t st = Done res -> I res.
Proof.
  induction fuel as [|fuel IH]; intros t st res Hbody Hst; simpl.
  - destruct (Z.leb_spec t spanSec); [discriminate|].
    intros E. injection E as <-. exact Hst.
  - destruct (Z.leb_spec t spanSec) as [Ht|Ht].
    + rewrite (remaining_in stride_pos Ht), grid_succ in Hbody.
      destruct (body t st) as [st'| |] eqn:Eb; simpl; try discriminate.
      apply IH.
      * intros u s s' Hu. apply Hbody. right. exact Hu.
      * apply (Hbody t st st'); [left; reflexivity | exact Hst | exact Eb].
    + intros E. injection E as <-. exact Hst.
Qed.

(** When the body can only complete or throw [e], and throws it at some
    offset the loop visits, the loop throws [e]. *)
Lemma for_upto_throws (e : js_error) :
  (forall t st, (exists st', body t st = Done st') \/ body t st = Throw e) ->
  forall fuel t st u,
    remaining stride spanSec t <= fuel ->
    In u (grid t stride (remaining stride spanSec t)) ->
    (forall s, body u s = Throw e) ->
    for_upto fuel stride spanSec body t st = Throw e.
Proof.
  intros Hcases. induction fuel as [|fuel IH]; intros t st u Hfuel Hu Hthrow; simpl.
  - destruct (Z.leb_spec t spanSec) as [Ht|Ht].
    + rewrite (remaining_in stride_pos Ht) in Hfuel. lia.
    + rewrite (remaining_out stride_pos Ht) in Hu. destruct Hu.
  - destruct (Z.leb_spec t spanSec) as [Ht|Ht].
    + rewrite (remaining_in stride_pos Ht) in Hfuel, Hu. rewrite grid_succ in Hu.
      destruct Hu as [<-|Hu]; [rewrite Hthrow; reflexivity|].
      destruct (Hcases t st) as [[st' E]|E]; rewrite E; simpl; [|reflexivity].
      apply (IH _ _ u); [lia | exact Hu | exact Hthrow].
    + rewrite (remaining_out stride_pos Ht) in Hu. destruct Hu.
Qed.

(** When the body can only complete or throw [e], so can the loop, given
    fuel for its passes. *)
Lemma for_upto_cases (e : js_error) :
  (forall t st, (exists st', body t st = Done st') \/ body t st = Throw e) ->
  forall fuel t st,
    remaining stride spanSec t <= fuel ->
    (exists res, for_upto fuel stride spanSec body t st = Done res)
    \/ for_upto fuel stride spanSec body t st = Throw e.
Proof.
  intros Hcases. induction fuel as [|fuel IH]; intros t st Hfuel; simpl.
  - destruct (Z.leb_spec t spanSec) as [Ht|Ht].
    + rewrite (remaining_in stride_pos Ht) in Hfuel. lia.
    + left. exists st. reflexivity.
  - destruct (Z.leb_spec t spanSec) as [Ht|Ht].
    + rewrite (remaining_in stride_pos Ht) in Hfuel.
      destruct (Hcases t st) as [[st' E]|E]; rewrite E; simpl.
      * apply IH. lia.
      * right. reflexivity.
    + left. exists st. reflexivity.
Qed.

End LoopFacts.

(** ** Loops that gather *)

Lemma collect_done {A : Type} (f : Z -> outcome (list A)) (ts : list Z) :
  forall ys, collect f ts = Done ys ->
    (forall t, In t ts -> exists x, f t = Done x)
    /\ ys = flat_map (fun t => match f t with Done x => x | _ => [] end) ts.
Proof.
  induction ts as [|t ts IH]; simpl; intros ys E.
  - injection E as <-. split; [intros t [] | reflexivity].
  - destruct (f t) as [x| |] eqn:Ef; simpl in E; try discriminate.
    destruct (collect f ts) as [y| |]; simpl in E; try discriminate.
    injection E as <-. destruct (IH y eq_refl) as [Hall Hy]. split.
    + intros u [<-|Hu]; [exists x; exact Ef | apply Hall; exact Hu].
    + rewrite Hy. reflexivity.
Qed.

Lemma collect_complete {A : Type} (f : Z -> outcome (list A)) (ts : list Z) :
  (forall t, In t ts -> exists x, f t = Done x) ->
  collect f ts = Done (flat_map (fun t => match f t with Done x => x | _ => [] end) ts).
Proof.
  induction ts as [|t ts IH]; intros Hall; simpl; [reflexivity|].
  destruct (Hall t (or_introl eq_refl)) as [x Ex]. rewrite Ex. simpl.
  rewrite IH by (intros u Hu; apply Hall; right; exact Hu). reflexivity.
Qed.

(** The first pass that throws decides. *)
Lemma collect_first_throw {A : Type} (f : Z -> outcome (list A))
    (pre post : list Z) (u : Z) (e : js_error) :
  (forall t, In t pre -> exists x, f t = Done x) ->
  f u = Throw e ->
  collect f (pre ++ u :: post) = Throw e.
Proof.
  induction pre as [|t pre IH]; intros Hall Hu; simpl.
  - rewrite Hu. reflexivity.
  - destruct (Hall t (or_introl eq_refl)) as [x Ex]. rewrite Ex. simpl.
    rewrite IH; [reflexivity | | exact Hu].
    intros v Hv. apply Hall. right. exact Hv.
Qed.

Lemma collect_cases {A : Type} (f : Z -> outcome (list A)) (ts : list Z) :
  (forall t, In t ts -> f t <> OutOfFuel) ->
  (exists ys, collect f ts = Done ys) \/ (exists e, collect f ts = Throw e).
Proof.
  induction ts as [|t ts IH]; intros Hall; simpl.
  - left. exists []. reflexivity.
  - destruct (f t) as [x|e|] eqn:Ef; simpl.
    + destruct IH as [[ys E]|[e E]]; [intros u Hu; apply Hall; right; exact Hu | |];
        rewrite E; simpl.
      * left. eexists. reflexivity.
      * right. exists e. reflexivity.
    + right. exists e. reflexivity.
    + exfalso. apply (Hall t); [left; reflexivity | exact Ef].
Qed.

(** A pass that throws keeps the loop from completing. *)
Lemma collect_throws {A : Type} (f : Z -> outcome (list A)) (ts : list Z) (u : Z) :
  (forall t, In t ts -> f t <> OutOfFuel) ->
  In u ts -> (exists e, f u = Throw e) ->
  exists err, collect f ts = Throw err.
Proof.
  intros Hfuel Hu [e He].
  destruct (collect_cases f ts Hfuel) as [[ys E]|Hthrow]; [|exact Hthrow].
  apply collect_done in E. destruct E as [Hall _].
  destruct (Hall u Hu) as [x Ex]. congruence.
Qed.

Section Gather.

Variables stride spanSec : Z.
Hypothesis stride_pos : (0 < stride)%Z.
Variable A : Type.
Variable body : Z -> list A -> outcome (list A).
Variable f : Z -> outcome (list A).
Hypothesis body_appends : forall t st, body t st = (x <- f t ;; Done (st ++ x)).

(** A loop whose pass at [t] appends [f t], or throws with it, gathers
    [f] over its offsets; one unit of fuel a pass is enough. *)
Lemma for_upto_gathers :
  forall fuel t st, remaining stride spanSec t <= fuel ->
    for_upto fuel stride spanSec body t st =
      (y <- collect f (grid t stride (remaining stride spanSec t)) ;; Done (st ++ y)).
Proof.
  induction fuel as [|fuel IH]; intros t st Hf; simpl.
  - destruct (Z.leb_spec t spanSec) as [Ht|Ht].
    + rewrite (remaining_in stride_pos Ht) in Hf. lia.
    + rewrite (remaining_out stride_pos Ht). simpl. rewrite app_nil_r. reflexivity.
  - destruct (Z.leb_spec t spanSec) as [Ht|Ht].
    + rewrite (remaining_in stride_pos Ht) in *. rewrite grid_succ, body_appends.
      cbn [collect]. destruct (f t) as [x| |]; simpl; try reflexivity.
      rewrite IH by lia.
      destruct (collect f (grid (t + stride) stride
                  (remaining stride spanSec (t + stride)))); simpl; try reflexivity.
      rewrite app_assoc. reflexivity.
    + rewrite (remaining_out stride_pos Ht). simpl. rewrite app_nil_r. reflexivity.
Qed.

End Gather.

Lemma bind_done_nil {A : Type} (c : outcome (list A)) :
  (y <- c ;; Done ([] ++ y)) = c.
Proof. destruct c; reflexivity. Qed.

(** ** The sampler *)

Lemma filter_all {A : Type} (f : A -> bool) (l : list A) :
  (forall x, In x l -> f x = true) -> filter f l = l.
Proof.
  induction l as [|x l IH]; intros H; simpl; [reflexivity|].
  rewrite (H x) by (left; reflexivity). f_equal. apply IH.
  intros y Hy. apply H. right. exact Hy.
Qed.

Lemma filter_none {A : Type} (f : A -> bool) (l : list A) :
  (forall x, In x l -> f x = false) -> filter f l = [].
Proof.
  induction l as [|x l IH]; intros H; simpl; [reflexivity|].
  rewrite (H x) by (left; reflexivity). apply IH.
  intros y Hy. apply H. right. exact Hy.
Qed.

Lemma filter_same {A : Type} (f g : A -> bool) (l : list A) :
  (forall x, In x l -> f x = g x) -> filter f l = filter g l.
Proof.
  induction l as [|x l IH]; intros H; simpl; [reflexivity|].
  rewrite (H x) by (left; reflexivity).
  rewrite IH by (intros y Hy; apply H; right; exact Hy). reflexivity.
Qed.

Lemma sorted_filter (f : Z -> bool) (l : list Z) :
  StronglySorted Z.lt l -> StronglySorted Z.lt (filter f l).
Proof.
  induction 1 as [|x l Hl IH Hx]; simpl; [constructor|].
  destruct (f x); [|exact IH].
  constructor; [exact IH|].
  apply Forall_forall. intros y Hy. apply filter_In in Hy.
  apply (proj1 (Forall_forall _ l) Hx). apply Hy.
Qed.

Lemma sorted_shift (a : Z) (l : list Z) :
  StronglySorted Z.lt l -> StronglySorted Z.lt (map (fun t => (a + t)%Z) l).
Proof.
  induction 1 as [|x l Hl IH Hx]; simpl; constructor; [exact IH|].
  apply Forall_forall. intros y Hy. apply in_map_iff in Hy.
  destruct Hy as (z & <- & Hz).
  pose proof (proj1 (Forall_forall _ l) Hx z Hz). lia.
Qed.


Section SamplerFacts.

Context {L : Libraries}.
Variable w : TimeWindow.

(** The pass at an instant where [propagate] returned [null]. *)
Lemma sample_body_null (rec : satrec) (t : Z) (position : SampledPositionProperty) :
  propagate rec (toDate (addSeconds (start w) t)) = None ->
  sample_body w rec t position = Throw TypeError.
Proof. intros E. unfold sample_body. rewrite E. reflexivity. Qed.

(** The pass at an instant where the result has no position. *)
Lemma sample_body_skip (rec : satrec) (t : Z) (position : SampledPositionProperty) :
  propagate rec (toDate (addSeconds (start w) t)) = Some {| prop_position := None |} ->
  sample_body w rec t position = Done position.
Proof. intros E. unfold sample_body. rewrite E. reflexivity. Qed.

(** The pass at an instant where the result has a position. *)
Lemma sample_body_solved (rec : satrec) (t : Z) (position : SampledPositionProperty)
    (p : eci) :
  propagate rec (toDate (addSeconds (start w) t)) = Some {| prop_position := Some p |} ->
  sample_body w rec t position =
    (cart <- convert p (addSeconds (start w) t) ;;
     Done (position ++ [(addSeconds (start w) t, cart)])).
Proof.
  intros E. unfold sample_body, convert, addSample. rewrite E. simpl.
  destruct (degreesLong _); simpl; [|reflexivity].
  destruct (degreesLat _); simpl; [|reflexivity].
  destruct (fromDegrees _ _ _); reflexivity.
Qed.

Lemma propagate_cases (rec : satrec) (tm : Z) :
  propagate rec tm = None
  \/ propagate rec tm = Some {| prop_position := None |}
  \/ exists p, propagate rec tm = Some {| prop_position := Some p |}.
Proof.
  destruct (propagate rec tm) as [[[p|]]|]; eauto.
Qed.

Lemma sample_body_appends (rec : satrec) (t : Z) (position : SampledPositionProperty) :
  sample_body w rec t position =
    (x <- sample_step w rec t ;; Done (position ++ x)).
Proof.
  unfold sample_step.
  destruct (propagate_cases rec (toDate (addSeconds (start w) t))) as [E|[E|[p E]]].
  - rewrite !sample_body_null by exact E. reflexivity.
  - rewrite !sample_body_skip by exact E. simpl. rewrite app_nil_r. reflexivity.
  - rewrite !(@sample_body_solved rec t _ p E).
    destruct (convert p (addSeconds (start w) t)); reflexivity.
Qed.

Lemma sample_step_fuel (rec : satrec) (t : Z) : sample_step w rec t <> OutOfFuel.
Proof.
  unfold sample_step.
  destruct (propagate_cases rec (toDate (addSeconds (start w) t))) as [E|[E|[p E]]].
  - rewrite sample_body_null by exact E. discriminate.
  - rewrite sample_body_skip by exact E. discriminate.
  - rewrite (@sample_body_solved rec t _ p E). unfold convert.
    destruct (degreesLong _); simpl; [|discriminate].
    destruct (degreesLat _); simpl; [|discriminate].
    destruct (fromDegrees _ _ _); discriminate.
Qed.

(** What a completed pass stores: nothing, or one sample at its instant. *)
Lemma sample_step_done (rec : satrec) (t : Z) (x : SampledPositionProperty) :
  sample_step w rec t = Done x ->
  (skipped w rec t = true /\ x = [])
  \/ (succeeds w rec t = true /\ skipped w rec t = false
      /\ exists p cart,
           propagate rec (toDate (addSeconds (start w) t))
             = Some {| prop_position := Some p |}
           /\ convert p (addSeconds (start w) t) = Done cart
           /\ x = [(addSeconds (start w) t, cart)]).
Proof.
  unfold sample_step, skipped, succeeds.
  destruct (propagate_cases rec (toDate (addSeconds (start w) t))) as [E|[E|[p E]]].
  - rewrite sample_body_null by exact E. discriminate.
  - rewrite sample_body_skip by exact E. rewrite E. intros H. injection H as <-.
    left. split; reflexivity.
  - rewrite (@sample_body_solved rec t _ p E), E.
    destruct (convert p (addSeconds (start w) t)) as [cart| |] eqn:Ec;
      simpl; try discriminate.
    intros H. injection H as <-. right. split; [reflexivity|]. split; [reflexivity|].
    exists p, cart. split; [reflexivity|]. split; [exact Ec | reflexivity].
Qed.

Lemma times_sample_at (rec : satrec) (t : Z) :
  times (sample_at w rec t) =
    if stored w rec t then [addSeconds (start w) t] else [].
Proof.
  unfold stored, sample_at. fold (sample_step w rec t).
  destruct (sample_step w rec t) as [x| |] eqn:E; try reflexivity.
  destruct (@sample_step_done rec t x E) as [[_ ->]|(_ & _ & p & cart & _ & _ & ->)];
    reflexivity.
Qed.

Lemma times_samples (rec : satrec) (ts : list Z) :
  times (flat_map (sample_at w rec) ts) =
    map (addSeconds (start w)) (filter (stored w rec) ts).
Proof.
  induction ts as [|t ts IH]; simpl; [reflexivity|].
  unfold times in *. rewrite map_app, IH.
  fold (times (sample_at w rec t)). rewrite times_sample_at.
  destruct (stored w rec t); reflexivity.
Qed.

Lemma samples_length (rec : satrec) (ts : list Z) :
  length (flat_map (sample_at w rec) ts) = length (filter (stored w rec) ts).
Proof.
  rewrite <- (length_map fst). fold (times (flat_map (sample_at w rec) ts)).
  rewrite times_samples. apply length_map.
Qed.

(** The sampler is the gathering of its passes over the offsets of the
    loop: its fuel is enough. *)
Lemma sampleTrajectory_run (e : ElementSet) :
  sampleTrajectory w e =
    collect (sample_step w (satrec_of e))
      (grid 0 10 (passes 10 (secondsDifference (stop w) (start w)))).
Proof.
  unfold sampleTrajectory, sample_with. fold (satrec_of e).
  rewrite (@for_upto_gathers 10 (secondsDifference (stop w) (start w)) ltac:(lia)
             _ (sample_body w (satrec_of e)) (sample_step w (satrec_of e))
             (sample_body_appends (satrec_of e)))
    by (rewrite remaining_0; lia).
  rewrite remaining_0. apply bind_done_nil.
Qed.

Lemma sampleTrajectory_cases (e : ElementSet) :
  (exists trajectory, sampleTrajectory w e = Done trajectory)
  \/ (exists err, sampleTrajectory w e = Throw err).
Proof.
  rewrite sampleTrajectory_run. apply collect_cases.
  intros t _. apply sample_step_fuel.
Qed.

(** Samples gathered over offsets of the loop are in order and in the
    window. *)
Lemma gathered_in_order (rec : satrec) (n : nat)
    (samples : SampledPositionProperty) :
  n <= passes 10 (secondsDifference (stop w) (start w)) ->
  collect (sample_step w rec) (grid 0 10 n) = Done samples ->
  ordered_in_window w samples.
Proof.
  intros Hn E. apply collect_done in E. destruct E as [_ ->].
  change (flat_map _ (grid 0 10 n)) with (flat_map (sample_at w rec) (grid 0 10 n)).
  unfold ordered_in_window. rewrite times_samples. split.
  - apply StronglySorted_Sorted.
    apply (sorted_shift (start w)), sorted_filter, grid_sorted. lia.
  - apply Forall_forall. intros tm Htm. apply in_map_iff in Htm.
    destruct Htm as (t & <- & Ht). apply filter_In in Ht. destruct Ht as [Ht _].
    assert (Hin : In t (grid 0 10 (passes 10 (secondsDifference (stop w) (start w))))).
    { apply grid_In in Ht. destruct Ht as (k & Hk & ->).
      apply grid_In. exists k. split; [lia | reflexivity]. }
    apply grid_within in Hin; [|lia].
    pose proof (secondsDifference_upper (stop w) (start w)).
    unfold addSeconds. lia.
Qed.

Lemma track_body_grows (position : option SampledPositionProperty)
    (t : Z) (st st' : list Cartesian3) :
  track_body w position t st = Done st' -> length st' <= length st + 1.
Proof.
  unfold track_body. destruct position as [p|]; simpl; [|discriminate].
  destruct (getValue p (addSeconds (start w) t)) as [cart|].
  - destruct (cartesianToCartographic cart); simpl; [|discriminate].
    intros E. injection E as <-. rewrite length_app. simpl. lia.
  - intros E. injection E as <-. lia.
Qed.

Lemma track_length (position : option SampledPositionProperty)
    (track : list Cartesian3) :
  groundTrack w position = Done track ->
  length track <= passes 30 (secondsDifference (stop w) (start w)).
Proof.
  intros Htrack. unfold groundTrack, track_with in Htrack.
  apply (@for_upto_length 30 (secondsDifference (stop w) (start w)) ltac:(lia) _ _
           (@track_body_grows position)) in Htrack.
  rewrite remaining_0 in Htrack. exact Htrack.
Qed.

(** A completed sampler stored a sample at every offset it did not skip. *)
Lemma sampleTrajectory_done (e : ElementSet) (trajectory : SampledPositionProperty) :
  sampleTrajectory w e = Done trajectory ->
  let ts := grid 0 10 (passes 10 (secondsDifference (stop w) (start w))) in
  trajectory = flat_map (sample_at w (satrec_of e)) ts
  /\ (forall t, In t ts -> exists x, sample_step w (satrec_of e) t = Done x)
  /\ (forall t, In t ts ->
        stored w (satrec_of e) t = succeeds w (satrec_of e) t
        /\ stored w (satrec_of e) t = negb (skipped w (satrec_of e) t)).
Proof.
  intros E ts. rewrite sampleTrajectory_run in E. apply collect_done in E.
  destruct E as [Hall ->]. split; [reflexivity|]. split; [exact Hall|].
  intros t Ht. destruct (Hall t Ht) as [x Ex].
  unfold stored, sample_at. fold (sample_step w (satrec_of e) t). rewrite Ex.
  destruct (@sample_step_done (satrec_of e) t x Ex) as [[Hs ->]|(Hok & Hs & p & cart & _ & _ & ->)].
  - rewrite Hs. unfold skipped in Hs. unfold succeeds.
    destruct (propagate _ _) as [[[q|]]|]; try discriminate. split; reflexivity.
  - rewrite Hok, Hs. split; reflexivity.
Qed.

End SamplerFacts.

Lemma session_span {L : Libraries} (now : JulianDate) :
  (7199 <= secondsDifference (stop (session_window now)) (start (session_window now))
   <= 7200)%Z.
Proof.
  pose proof (secondsDifference_upper (stop (session_window now))
                (start (session_window now))) as Hu.
  pose proof (secondsDifference_lower (stop (session_window now))
                (start (session_window now))) as Hl.
  unfold session_window, addHours, timewindow in *. simpl in *. lia.
Qed.

Lemma passes_beyond (spanSec : Z) (n : nat) :
  (10 * Z.of_nat n <= spanSec)%Z -> exists m, passes 10 spanSec = n + S m.
Proof.
  intros H. unfold passes.
  assert (Z.of_nat n <= spanSec / 10)%Z by (apply Z.div_le_lower_bound; lia).
  exists (Z.to_nat (spanSec / 10 + 1) - n - 1). lia.
Qed.

(** C3 does not hold of the code when the propagator reports "no
    solution" by returning [null]. In the session's 2-hour
    window, with a position stored at every offset up to 5400 s and [null]
    returned after, reading [prop.position] throws a [TypeError] at the
    offset 5410 s: the sampler throws and no trajectory is produced. *)
Theorem C3_null_after_decay_throws {L : Libraries} (now : JulianDate) (e : ElementSet) :
  (forall t, (0 <= t <= 5400)%Z ->
     exists p cart,
       propagate (satrec_of e) (now + t)%Z = Some {| prop_position := Some p |}
       /\ convert p (now + t)%Z = Done cart) ->
  (forall t, (5400 < t)%Z -> propagate (satrec_of e) (now + t)%Z = None) ->
  sampleTrajectory (session_window now) e = Throw TypeError.
Proof.
  intros Hsolved Hnull. rewrite sampleTrajectory_run.
  destruct (@passes_beyond
              (secondsDifference (stop (session_window now)) (start (session_window now)))
              541) as [m ->].
  { pose proof (session_span now). lia. }
  rewrite grid_app, (grid_succ _ 10 m). apply collect_first_throw.
  - intros t Ht. apply grid_In in Ht. destruct Ht as (k & Hk & ->).
    destruct (Hsolved (0 + 10 * Z.of_nat k)%Z ltac:(lia)) as (p & cart & Ep & Ec).
    unfold sample_step.
    rewrite (@sample_body_solved L (session_window now) (satrec_of e) _ [] p Ep).
    unfold addSeconds. simpl start. rewrite Ec. eexists. reflexivity.
  - apply sample_body_null. apply Hnull. lia.
Qed.

Lemma C3_null_after_decay_throws_witness :
  sampleTrajectory (L := Fake.fake_null (Fake.decays_after 5400)) (session_window 0%Z)
    Fake.iss_tle = Throw TypeError.
Proof.
  apply (@C3_null_after_decay_throws (Fake.fake_null (Fake.decays_after 5400))
           0%Z Fake.iss_tle).
  - intros t Ht. exists t, (t, t, 400000%Z).
    simpl. unfold Fake.nullish, Fake.decays_after.
    destruct (Z.leb_spec t 5400); [|lia]. split; reflexivity.
  - intros t Ht. simpl. unfold Fake.nullish, Fake.decays_after.
    destruct (Z.leb_spec t 5400); [lia | reflexivity].
Defined.

(** C4: for every element set and every window, whatever the sampler
    stores is in order and in the window: the sampler never runs out of
    fuel; the instants of a trajectory it returns are strictly increasing
    and lie between the start and the stop of the window, and so do those
    of the samples gathered by the passes made before a throw; and it
    returns a trajectory whenever every pass completes. *)
Theorem C4_times_increasing_in_window {L : Libraries} (w : TimeWindow) (e : ElementSet) :
  sampleTrajectory w e <> OutOfFuel
  /\ (forall trajectory,
        sampleTrajectory w e = Done trajectory ->
        Sorted Z.lt (times trajectory)
        /\ Forall (fun tm => (start w <= tm <= stop w)%Z) (times trajectory))
  /\ (forall n samples,
        n <= passes 10 (secondsDifference (stop w) (start w)) ->
        collect (sample_step w (satrec_of e)) (grid 0 10 n) = Done samples ->
        Sorted Z.lt (times samples)
        /\ Forall (fun tm => (start w <= tm <= stop w)%Z) (times samples))
  /\ ((forall t, In t (grid 0 10 (passes 10 (secondsDifference (stop w) (start w)))) ->
         exists x, sample_step w (satrec_of e) t = Done x) ->
      exists trajectory, sampleTrajectory w e = Done trajectory).
Proof.
  split; [|split; [|split]].
  - destruct (sampleTrajectory_cases w e) as [[tr E]|[err E]]; rewrite E; discriminate.
  - intros trajectory E. rewrite sampleTrajectory_run in E.
    apply (gathered_in_order w (satrec_of e) (le_n _) E).
  - intros n samples Hn E. apply (gathered_in_order w (satrec_of e) Hn E).
  - intros Hall. rewrite sampleTrajectory_run. eexists.
    apply collect_complete. exact Hall.
Qed.

Lemma C4_times_increasing_in_window_witness :
  exists trajectory,
    sampleTrajectory (L := Fake.drifting (Fake.decays_after 5400)) (session_window 0%Z)
      Fake.iss_tle = Done trajectory
    /\ Sorted Z.lt (times trajectory)
    /\ Forall (fun tm => (0 <= tm <= 7200)%Z) (times trajectory).
Proof.
  destruct (C4_times_increasing_in_window (L := Fake.drifting (Fake.decays_after 5400))
              (session_window 0%Z) Fake.iss_tle) as (_ & Hdone & _ & Hcomplete).
  destruct Hcomplete as [trajectory E].
  - intros t _. unfold sample_step, sample_body. simpl.
    unfold Fake.falsy. destruct (Fake.decays_after _ _); eexists; reflexivity.
  - exists trajectory. split; [exact E|]. exact (Hdone trajectory E).
Defined.

(** C5 does not hold of the code when the propagator reports "no
    solution" by returning [null]. The pass at such an instant
    throws a [TypeError] instead of going on; so the sampler throws as
    soon as one sampled instant has a [null] result; and when every
    sampled instant has one, the sampler throws a [TypeError] where the
    design asks for an empty trajectory and no error. *)
Theorem C5_null_result_aborts {L : Libraries} (w : TimeWindow) (e : ElementSet) :
  let ts := grid 0 10 (passes 10 (secondsDifference (stop w) (start w))) in
  (forall t position,
      propagate (satrec_of e) (toDate (addSeconds (start w) t)) = None ->
      sample_body w (satrec_of e) t position = Throw TypeError)
  /\ (forall t, In t ts ->
        propagate (satrec_of e) (toDate (addSeconds (start w) t)) = None ->
        exists err, sampleTrajectory w e = Throw err)
  /\ ((start w <= stop w)%Z ->
      (forall t, In t ts ->
         propagate (satrec_of e) (toDate (addSeconds (start w) t)) = None) ->
      sampleTrajectory w e = Throw TypeError).
Proof.
  intros ts. split; [|split].
  - intros t position E. apply sample_body_null. exact E.
  - intros t Ht E. rewrite sampleTrajectory_run. apply collect_throws with (u := t).
    + intros u _. apply sample_step_fuel.
    + exact Ht.
    + exists TypeError. apply sample_body_null. exact E.
  - intros Hle Hall. rewrite sampleTrajectory_run. fold ts.
    assert (Hspan : (0 <= secondsDifference (stop w) (start w))%Z).
    { destruct (Z.eq_dec (stop w) (start w)) as [->|Hne].
      - rewrite secondsDifference_same. lia.
      - pose proof (secondsDifference_lower (stop w) (start w)). lia. }
    destruct (@passes_beyond (secondsDifference (stop w) (start w)) 0) as [m Hm];
      [simpl; lia|].
    unfold ts in *. rewrite Hm in *. simpl Nat.add in *.
    rewrite grid_succ in *.
    apply (@collect_first_throw _ _ [] _ 0%Z TypeError).
    + intros t [].
    + apply sample_body_null. apply Hall. left. reflexivity.
Qed.

Lemma C5_null_result_aborts_witness :
  sampleTrajectory (L := Fake.fake_null Fake.never) (session_window 0%Z) Fake.iss_tle
  = Throw TypeError.
Proof.
  apply (proj2 (proj2 (C5_null_result_aborts (L := Fake.fake_null Fake.never)
                         (session_window 0%Z) Fake.iss_tle))).
  - simpl. lia.
  - intros t _. reflexivity.
Defined.

(** ** The ground track *)




(** ** The rendering driver *)

Section SceneFacts.

Context {L : Libraries}.
Variable w : TimeWindow.

Lemma with_entities_app (es fs : list Entity) (world : World) :
  with_entities fs (with_entities es world) = with_entities (es ++ fs) world.
Proof. unfold with_entities. simpl. rewrite app_assoc. reflexivity. Qed.

Lemma with_entities_nil (world : World) : with_entities [] world = world.
Proof. unfold with_entities. rewrite app_nil_r. destruct world; reflexivity. Qed.

Lemma trajectory_of_done (e : ElementSet) (trajectory : SampledPositionProperty) :
  sampleTrajectory w e = Done trajectory -> trajectory_of w e = trajectory.
Proof. intros E. unfold trajectory_of. rewrite E. reflexivity. Qed.

Lemma load_cases (file : jsstring) (res : FetchResult) :
  (exists tles, loadTLEsFromPublic file res = Done tles)
  \/ exists e, loadTLEsFromPublic file res = Throw e.
Proof.
  destruct res as [e|ok status text]; simpl.
  - right. exists e. reflexivity.
  - destruct ok; simpl.
    + left. unfold parseTLEText, parseLines.
      destruct (@scan_completes (normalize text) (length (normalize text)) 0 [])
        as (out & E & _); [lia|].
      exists out. exact E.
    + right. eexists. reflexivity.
Qed.

(** [addSatelliteFromTLE] adds its entity when the sampler returns, and
    nothing when it throws. *)
Lemma addSatelliteFromTLE_run (e : ElementSet) (world : World) :
  addSatelliteFromTLE w e world =
    match sampleTrajectory w e with
    | Done _ => (with_entities [satellite_entity w e] world, Done (satellite_entity w e))
    | Throw err => (world, Throw err)
    | OutOfFuel => (world, OutOfFuel)
    end.
Proof.
  unfold addSatelliteFromTLE, bindM, lift, satellite_entity, trajectory_of.
  destruct (sampleTrajectory w e); reflexivity.
Qed.

Lemma map_tles_run (tles : list ElementSet) :
  forall world,
    map_tles w tles world =
      (with_entities (fst (sats_until_throw w tles)) world,
       match snd (sats_until_throw w tles) with
       | None => Done (fst (sats_until_throw w tles))
       | Some err => Throw err
       end).
Proof.
  induction tles as [|t tles IH]; intros world.
  - simpl. unfold ret. rewrite with_entities_nil. reflexivity.
  - cbn [map_tles sats_until_throw]. unfold bindM at 1.
    rewrite addSatelliteFromTLE_run.
    destruct (sampleTrajectory_cases w t) as [[tr E]|[err E]]; rewrite E.
    + unfold bindM at 1. rewrite IH, with_entities_app. cbn [fst snd].
      destruct (snd (sats_until_throw w tles)); reflexivity.
    + cbn [fst snd]. rewrite with_entities_nil. reflexivity.
Qed.

(** How far the satellites got. *)
Lemma sats_until_throw_spec (es : list ElementSet) :
  exists m,
    m <= length es
    /\ fst (sats_until_throw w es) = map (satellite_entity w) (firstn m es)
    /\ (forall e, In e (firstn m es) ->
          exists trajectory, sampleTrajectory w e = Done trajectory)
    /\ ((snd (sats_until_throw w es) = None /\ m = length es)
        \/ exists e err,
             snd (sats_until_throw w es) = Some err
             /\ m < length es
             /\ nth_error es m = Some e
             /\ sampleTrajectory w e = Throw err).
Proof.
  induction es as [|e es IH].
  - exists 0. simpl. split; [lia|]. split; [reflexivity|]. split.
    + intros e [].
    + left. split; reflexivity.
  - simpl. destruct (sampleTrajectory_cases w e) as [[tr E]|[err E]]; rewrite E.
    + destruct IH as (m & Hm & Hfst & Hdone & Hend).
      exists (S m). cbn [fst snd firstn map]. rewrite Hfst.
      split; [lia|]. split; [reflexivity|]. split.
      * intros e' [<-|Hin]; [exists tr; exact E | apply Hdone; exact Hin].
      * destruct Hend as [[Hnone ->]|(e' & err & Hsome & Hlt & Hnth & Hthrow)].
        -- left. split; [exact Hnone | reflexivity].
        -- right. exists e', err. split; [exact Hsome|]. split; [lia|].
           split; [exact Hnth | exact Hthrow].
    + exists 0. cbn [fst snd firstn map].
      split; [lia|]. split; [reflexivity|]. split.
      * intros e' [].
      * right. exists e, err. split; [reflexivity|]. split; [lia|].
        split; [reflexivity | exact E].
Qed.

Lemma track_body_cases (position : option SampledPositionProperty)
    (t : Z) (st : list Cartesian3) :
  (exists st', track_body w position t st = Done st')
  \/ track_body w position t st = Throw TypeError.
Proof.
  unfold track_body. destruct position as [p|]; simpl; [|right; reflexivity].
  destruct (getValue p (addSeconds (start w) t)) as [cart|].
  - destruct (cartesianToCartographic cart); simpl.
    + left. eexists. reflexivity.
    + right. reflexivity.
  - left. eexists. reflexivity.
Qed.

(** The ground-track loop completes or throws a [TypeError]. *)
Lemma groundTrack_cases (position : option SampledPositionProperty) :
  (exists track, groundTrack w position = Done track)
  \/ groundTrack w position = Throw TypeError.
Proof.
  unfold groundTrack, track_with.
  apply (@for_upto_cases 30 (secondsDifference (stop w) (start w)) ltac:(lia) _ _
           TypeError (track_body_cases position)).
  rewrite remaining_0. lia.
Qed.

(** One pass of the ground-track loop over the entities: the ground
    track is added when it completes, and nothing is when it throws. *)
Lemma track_entity_run (tles : list ElementSet) (i : nat) (e : ElementSet)
    (world : World) :
  nth_error tles i = Some e ->
  track_entity w tles i (satellite_entity w e) world =
    match groundTrack w (Some (trajectory_of w e)) with
    | Done _ => (with_entities [ground_track_entity w e] world, Done tt)
    | Throw err => (world, Throw err)
    | OutOfFuel => (world, OutOfFuel)
    end.
Proof.
  intros Hnth. unfold track_entity, bindM, lift, ground_track_entity, track_of.
  simpl ent_position. rewrite Hnth.
  destruct (groundTrack w (Some (trajectory_of w e))); reflexivity.
Qed.

Lemma track_entities_run (after : list ElementSet) :
  forall before world,
    track_entities w (before ++ after) (length before)
      (map (satellite_entity w) after) world =
    (with_entities (fst (tracks_until_throw w after)) world,
     if snd (tracks_until_throw w after) then Done tt else Throw TypeError).
Proof.
  induction after as [|t after IH]; intros before world.
  - simpl. unfold ret. rewrite with_entities_nil. reflexivity.
  - cbn [map track_entities tracks_until_throw]. unfold bindM at 1.
    rewrite track_entity_run
      by (rewrite nth_error_app2, Nat.sub_diag by lia; reflexivity).
    destruct (groundTrack_cases (Some (trajectory_of w t))) as [[track E]|E];
      rewrite E.
    + replace (before ++ t :: after) with ((before ++ [t]) ++ after)
        by (rewrite <- app_assoc; reflexivity).
      replace (length before + 1) with (length (before ++ [t]))
        by (rewrite length_app; reflexivity).
      rewrite IH, with_entities_app. reflexivity.
    + cbn [fst snd]. rewrite with_entities_nil. reflexivity.
Qed.

(** How far the ground tracks got. *)
Lemma tracks_until_throw_spec (es : list ElementSet) :
  exists k,
    k <= length es
    /\ fst (tracks_until_throw w es) = map (ground_track_entity w) (firstn k es)
    /\ snd (tracks_until_throw w es) = negb (k <? length es)
    /\ (forall j e, j < k -> nth_error es j = Some e ->
          groundTrack w (Some (trajectory_of w e)) = Done (track_of w e))
    /\ (forall e, nth_error es k = Some e ->
          groundTrack w (Some (trajectory_of w e)) = Throw TypeError).
Proof.
  induction es as [|e es IH].
  - exists 0. simpl. split; [lia|]. split; [reflexivity|]. split; [reflexivity|].
    split.
    + intros j e Hj. lia.
    + intros e He. discriminate.
  - simpl. destruct (groundTrack_cases (Some (trajectory_of w e))) as [[track E]|E];
      rewrite E.
    + destruct IH as (k & Hk & Hfst & Hsnd & Hdone & Hthrow).
      exists (S k). simpl. rewrite Hfst, Hsnd.
      split; [lia|]. split; [reflexivity|]. split; [reflexivity|]. split.
      * intros j e' Hj Hnth. destruct j as [|j]; simpl in Hnth.
        -- injection Hnth as <-. unfold track_of. rewrite E. reflexivity.
        -- apply (Hdone j e'); [lia | exact Hnth].
      * intros e' Hnth. apply Hthrow. exact Hnth.
    + exists 0. simpl. split; [lia|]. split; [reflexivity|]. split; [reflexivity|].
      split.
      * intros j e' Hj. lia.
      * intros e' He. injection He as <-. exact E.
Qed.

(** What [init] leaves when element sets were loaded. *)
Lemma init_loaded (res : FetchResult) (tles : list ElementSet) :
  loadTLEsFromPublic (lit "/TLE.txt") res = Done tles ->
  tles <> [] ->
  init w res = Done (scene_after_load w tles).
Proof.
  intros Hload Hne.
  unfold init, init_try, bindM at 1, lift at 1. rewrite Hload.
  destruct tles as [|t tles]; [congruence|].
  cbn [length Nat.eqb].
  unfold bindM at 1. rewrite map_tles_run. unfold scene_after_load.
  destruct (sats_until_throw_spec (t :: tles)) as (m & Hm & Hfst & _ & Hend).
  destruct Hend as [[Hnone ->]|(e & err & Hsome & _)].
  - rewrite Hnone, Hfst, firstn_all.
    unfold bindM at 1. cbn [map length Nat.eqb negb].
    unfold bindM at 1, flyTo at 1, set_trackedEntity at 1.
    rewrite (track_entities_run (t :: tles) []).
    unfold loaded_world.
    destruct (snd (tracks_until_throw w (t :: tles)));
      unfold with_entities, new_world, bindM, console_log, entities_add;
      cbn [entities trackedEntity flownTo console fst app map];
      rewrite ?app_nil_r, <- ?app_assoc; reflexivity.
  - rewrite Hsome. reflexivity.
Qed.

Lemma init_load_failed (res : FetchResult) (e : js_error) :
  loadTLEsFromPublic (lit "/TLE.txt") res = Throw e ->
  init w res = Done (failed_world e).
Proof.
  intros Hload. unfold init, init_try, bindM at 1, lift at 1.
  rewrite Hload. reflexivity.
Qed.



End SceneFacts.

(** ** Notices *)

Section NoticeFacts.

Context {L : Libraries}.
Variable w : TimeWindow.

Lemma error_notice_is_notice (err : js_error) :
  fallback_notice (error_notice err) = true.
Proof. reflexivity. Qed.




End NoticeFacts.




(** ** Scenarios of the design document, run on the model *)

(** Two bare pairs in a row are named in the order they are pushed. *)
Example two_bare_pairs :
  parseTLEText (lit "1 a
2 b
1 c
2 d") =
    Done [ {| name := Some (lit "SAT 1"); tle1 := Some (lit "1 a"); tle2 := Some (lit "2 b") |};
           {| name := Some (lit "SAT 2"); tle1 := Some (lit "1 c"); tle2 := Some (lit "2 d") |} ].
Proof. vm_compute. reflexivity. Qed.

(** Carriage returns, surrounding blanks and blank lines do not count. *)
Example crlf_and_blank_lines :
  parseTLEText ([32; 49; 32; 97; 32; 13; 10; 13; 10; 9; 10; 50; 32; 98; 13; 10]%N) =
    Done [ {| name := Some (lit "SAT 1"); tle1 := Some (lit "1 a"); tle2 := Some (lit "2 b") |} ].
Proof. vm_compute. reflexivity. Qed.

(** A first element line with no second one after it is dropped, and a
    name line is taken with the pair that follows it. *)
Example dangling_line_then_named_group :
  parseTLEText (lit "1 orphan
NOAA 19
1 x
2 y") =
    Done [ {| name := Some (lit "NOAA 19"); tle1 := Some (lit "1 x"); tle2 := Some (lit "2 y") |} ].
Proof. vm_compute. reflexivity. Qed.

(** A response that is not ok ends in the error label of the [catch]
    block, with the status in its text. *)
Example not_found_is_reported :
  init (L := Fake.fake Fake.never) (session_window 0%Z) (Response false 404 []) =
    Done {| entities := [error_notice (Error (lit "Failed to load /TLE.txt: 404"))];
            trackedEntity := None;
            flownTo := None;
            console := [ConsoleError (Error (lit "Failed to load /TLE.txt: 404"))] |}.
Proof. vm_compute. reflexivity. Qed.


(** * Further properties of the code *)

(** ** Trimming and splitting *)

Lemma trimStart_suffix (s : jsstring) :
  exists pre, s = pre ++ trimStart s /\ Forall (fun c => isTrimmable c = true) pre.
Proof.
  induction s as [|c s IH]; simpl.
  - exists []. split; [reflexivity | constructor].
  - destruct (isTrimmable c) eqn:Ec.
    + destruct IH as (pre & E & Hpre). exists (c :: pre). split.
      * simpl. f_equal. exact E.
      * constructor; assumption.
    + exists []. split; [reflexivity | constructor].
Qed.

Lemma trimStart_head (s : jsstring) (c : codeunit) (r : jsstring) :
  trimStart s = c :: r -> isTrimmable c = false.
Proof.
  induction s as [|d s IH]; simpl; [discriminate|].
  destruct (isTrimmable d) eqn:Ed; [exact IH|].
  intros E. injection E as <- _. exact Ed.
Qed.

Lemma trimStart_keeps (c : codeunit) (r : jsstring) :
  isTrimmable c = false -> trimStart (c :: r) = c :: r.
Proof. intros H. simpl. rewrite H. reflexivity. Qed.

Lemma trimStart_idem (s : jsstring) : trimStart (trimStart s) = trimStart s.
Proof.
  destruct (trimStart s) as [|c r] eqn:E; [reflexivity|].
  apply trimStart_keeps. eapply trimStart_head. exact E.
Qed.

Lemma trimStart_skip (pre s : jsstring) :
  Forall (fun c => isTrimmable c = true) pre -> trimStart (pre ++ s) = trimStart s.
Proof.
  induction 1 as [|c pre Hc _ IH]; simpl; [reflexivity|].
  rewrite Hc. exact IH.
Qed.

Lemma trimStart_app (s t : jsstring) :
  trimStart s <> [] -> trimStart (s ++ t) = trimStart s ++ t.
Proof.
  induction s as [|c s IH]; simpl; [congruence|].
  destruct (isTrimmable c); [exact IH | reflexivity].
Qed.

Lemma trimStart_In (s : jsstring) (x : codeunit) : In x (trimStart s) -> In x s.
Proof.
  destruct (trimStart_suffix s) as (pre & E & _). intros H.
  rewrite E. apply in_or_app. right. exact H.
Qed.

Lemma trim_In (s : jsstring) (x : codeunit) : In x (trim s) -> In x s.
Proof.
  unfold trim, trimEnd. intros H.
  apply in_rev in H. apply trimStart_In in H. apply in_rev in H.
  apply trimStart_In in H. exact H.
Qed.

(** A trailing code unit that [trim] removes does not change the result. *)
Lemma trim_app_trimmable (s : jsstring) (c : codeunit) :
  isTrimmable c = true -> trim (s ++ [c]) = trim s.
Proof.
  intros Hc. unfold trim, trimEnd.
  destruct (trimStart s) as [|d r] eqn:E.
  - destruct (trimStart_suffix s) as (pre & Es & Hpre).
    rewrite E, app_nil_r in Es. subst pre.
    rewrite <- (app_nil_r (s ++ [c])), trimStart_skip; [reflexivity|].
    apply Forall_app. split; [exact Hpre|]. constructor; [exact Hc | constructor].
  - rewrite trimStart_app by (rewrite E; discriminate).
    rewrite E, rev_app_distr. simpl rev at 1. simpl app.
    rewrite Hc. reflexivity.
Qed.

Lemma trim_idem (s : jsstring) : trim (trim s) = trim s.
Proof.
  unfold trim, trimEnd.
  set (q := trimStart s).
  destruct (trimStart (rev q)) as [|a r0] eqn:Er; [reflexivity|].
  set (r := a :: r0) in *.
  assert (Hfix : trimStart (rev r) = rev r).
  { destruct (rev r) as [|z y] eqn:Ez; [reflexivity|].
    apply trimStart_keeps.
    destruct (trimStart_suffix (rev q)) as (pre & Eq & _).
    rewrite Er in Eq.
    assert (Er' : r = rev (z :: y)) by (rewrite <- Ez, rev_involutive; reflexivity).
    rewrite Er' in Eq. simpl in Eq.
    assert (Eq' : q = z :: rev (pre ++ rev y)).
    { rewrite <- (rev_involutive q), Eq, app_assoc, rev_app_distr. reflexivity. }
    eapply trimStart_head. exact Eq'. }
  rewrite Hfix, rev_involutive.
  rewrite <- Er, trimStart_idem. reflexivity.
Qed.

Lemma trim_nil : trim [] = [].
Proof. reflexivity. Qed.

(** Pieces of a split hold no line feed. *)
Lemma split_from_no_lf_pieces (n : nat) :
  forall s cur, length s <= n -> ~ In 10%N cur ->
    Forall (fun p => ~ In 10%N p) (split_from cur s).
Proof.
  induction n as [|n IH]; intros s cur Hlen Hcur.
  - destruct s; [|simpl in Hlen; lia]. simpl. constructor; [|constructor].
    intros H. apply in_rev in H. exact (Hcur H).
  - destruct s as [|c s]; simpl.
    + constructor; [|constructor]. intros H. apply in_rev in H. exact (Hcur H).
    + simpl in Hlen.
      assert (Hrev : ~ In 10%N (rev cur)) by (intros H; apply in_rev in H; exact (Hcur H)).
      destruct (N.eqb_spec c 10) as [->|Hc].
      * constructor; [exact Hrev|]. apply IH; [lia | intros []].
      * assert (Hcc : ~ In 10%N (c :: cur)) by (simpl; intros [E|E]; congruence).
        destruct s as [|d s'].
        -- apply IH; [simpl; lia | exact Hcc].
        -- destruct (N.eqb c 13 && N.eqb d 10).
           ++ constructor; [exact Hrev|]. apply IH; [simpl in Hlen; lia | intros []].
           ++ apply IH; [simpl in *; lia | exact Hcc].
Qed.

(** A text without a line feed is one piece. *)
Lemma split_from_one_piece (s : jsstring) :
  forall cur, ~ In 10%N s -> split_from cur s = [rev cur ++ s].
Proof.
  induction s as [|c s IH]; intros cur Hs; simpl.
  - rewrite app_nil_r. reflexivity.
  - destruct (N.eqb_spec c 10) as [->|Hc]; [exfalso; apply Hs; left; reflexivity|].
    assert (Hs' : ~ In 10%N s) by (intros H; apply Hs; right; exact H).
    assert (Hstep : split_from (c :: cur) s = [rev cur ++ c :: s]).
    { rewrite IH by exact Hs'. simpl. rewrite <- app_assoc. reflexivity. }
    destruct s as [|d s']; [exact Hstep|].
    destruct (N.eqb_spec d 10) as [->|Hd]; [exfalso; apply Hs'; left; reflexivity|].
    rewrite andb_false_r. exact Hstep.
Qed.

(** Splitting a text that continues, after a line feed, with [b]: the
    pieces of the text, the last of them without its final carriage return
    when it has one, then the pieces of [b]. *)
Lemma split_from_app_lf (n : nat) (b : jsstring) :
  forall a cur, length a <= n ->
    exists ps lastp lastp',
      split_from cur a = ps ++ [lastp]
      /\ split_from cur (a ++ 10%N :: b) = ps ++ lastp' :: split_from [] b
      /\ (lastp = lastp' \/ lastp = lastp' ++ [13%N]).
Proof.
  induction n as [|n IH]; intros a cur Hlen.
  - destruct a; [|simpl in Hlen; lia]. simpl.
    exists [], (rev cur), (rev cur). auto.
  - destruct a as [|c a]; simpl.
    + exists [], (rev cur), (rev cur). auto.
    + simpl in Hlen. destruct (N.eqb_spec c 10) as [->|Hc].
      * destruct (IH a [] ltac:(lia)) as (ps & lp & lp' & E1 & E2 & Hl).
        exists (rev cur :: ps), lp, lp'. rewrite E1, E2. auto.
      * destruct a as [|d a']; simpl.
        -- destruct (N.eqb_spec c 13) as [->|Hc13]; simpl.
           ++ exists [], (rev cur ++ [13%N]), (rev cur). auto.
           ++ exists [], (rev cur ++ [c]), (rev cur ++ [c]). auto.
        -- destruct (N.eqb c 13 && N.eqb d 10).
           ++ destruct (IH a' [] ltac:(simpl in Hlen; lia))
                as (ps & lp & lp' & E1 & E2 & Hl).
              exists (rev cur :: ps), lp, lp'. rewrite E1, E2. auto.
           ++ destruct (IH (d :: a') (c :: cur) ltac:(simpl in *; lia))
                as (ps & lp & lp' & E1 & E2 & Hl).
              exists ps, lp, lp'. split; [exact E1 | split; [exact E2 | exact Hl]].
Qed.

Lemma split_from_cons2 (cur : jsstring) (c d : codeunit) (s : jsstring) :
  c <> 10%N ->
  split_from cur (c :: d :: s) =
    if N.eqb c 13 && N.eqb d 10 then rev cur :: split_from [] s
    else split_from (c :: cur) (d :: s).
Proof.
  intros Hc.
  change (split_from cur (c :: d :: s))
    with (if N.eqb c 10 then rev cur :: split_from [] (d :: s)
          else if N.eqb c 13 && N.eqb d 10 then rev cur :: split_from [] s
               else split_from (c :: cur) (d :: s)).
  destruct (N.eqb_spec c 10); [congruence | reflexivity].
Qed.

(** A carriage return at the very end stays in the last piece. *)
Lemma split_from_app_cr (n : nat) :
  forall a cur, length a <= n ->
    exists ps lastp,
      split_from cur a = ps ++ [lastp]
      /\ split_from cur (a ++ [13%N]) = ps ++ [lastp ++ [13%N]].
Proof.
  induction n as [|n IH]; intros a cur Hlen.
  - destruct a; [|simpl in Hlen; lia].
    exists [], (rev cur). split; reflexivity.
  - destruct a as [|c a].
    + exists [], (rev cur). split; reflexivity.
    + simpl in Hlen. destruct (N.eqb_spec c 10) as [->|Hc].
      * destruct (IH a [] ltac:(lia)) as (ps & lp & E1 & E2).
        exists (rev cur :: ps), lp. split.
        -- change (split_from cur (10%N :: a)) with (rev cur :: split_from [] a).
           rewrite E1. reflexivity.
        -- change (split_from cur ((10%N :: a) ++ [13%N]))
             with (rev cur :: split_from [] (a ++ [13%N])).
           rewrite E2. reflexivity.
      * destruct a as [|d a'].
        -- exists [], (rev cur ++ [c]). split.
           ++ rewrite split_from_one_piece; [reflexivity|].
              simpl. intros [E|[]]. congruence.
           ++ simpl app. rewrite split_from_one_piece.
              ** simpl. rewrite <- app_assoc. reflexivity.
              ** simpl. intros [E|[E|[]]]; [congruence | discriminate].
        -- change ((c :: d :: a') ++ [13%N]) with (c :: d :: (a' ++ [13%N])).
           rewrite !split_from_cons2 by exact Hc.
           destruct (N.eqb c 13 && N.eqb d 10).
           ++ destruct (IH a' [] ltac:(simpl in Hlen; lia)) as (ps & lp & E1 & E2).
              exists (rev cur :: ps), lp. rewrite E1, E2. split; reflexivity.
           ++ destruct (IH (d :: a') (c :: cur) ltac:(simpl in *; lia))
                as (ps & lp & E1 & E2).
              exists ps, lp. split; [exact E1 | exact E2].
Qed.

Lemma split_from_In (n : nat) :
  forall s cur, length s <= n ->
    forall p x, In p (split_from cur s) -> In x p -> In x cur \/ In x s.
Proof.
  induction n as [|n IH]; intros s cur Hlen p x Hp Hx.
  - destruct s; [|simpl in Hlen; lia]. simpl in Hp. destruct Hp as [<-|[]].
    left. apply in_rev. exact Hx.
  - destruct s as [|c s].
    + simpl in Hp. destruct Hp as [<-|[]]. left. apply in_rev. exact Hx.
    + simpl in Hlen. simpl in Hp.
      assert (Hrest : forall s' cur', length s' <= n ->
                        In p (split_from cur' s') ->
                        (forall y, In y cur' -> In y cur \/ In y (c :: s)) ->
                        (forall y, In y s' -> In y (c :: s)) ->
                        In x cur \/ In x (c :: s)).
      { intros s' cur' Hl Hin Hc' Hs'.
        destruct (IH s' cur' Hl p x Hin Hx) as [H|H]; [apply Hc' | right; apply Hs'];
          exact H. }
      destruct (N.eqb c 10).
      * destruct Hp as [<-|Hp]; [left; apply in_rev; exact Hx|].
        apply (Hrest s []); [lia | exact Hp | intros y [] | intros y Hy; right; exact Hy].
      * assert (Hkeep : In p (split_from (c :: cur) s) -> In x cur \/ In x (c :: s)).
        { intros Hin. apply (Hrest s (c :: cur)); [lia | exact Hin | |].
          - intros y [<-|Hy]; [right; left; reflexivity | left; exact Hy].
          - intros y Hy. right. exact Hy. }
        destruct s as [|d s']; [exact (Hkeep Hp)|].
        destruct (N.eqb c 13 && N.eqb d 10); [|exact (Hkeep Hp)].
        destruct Hp as [<-|Hp]; [left; apply in_rev; exact Hx|].
        apply (Hrest s' []); [simpl in Hlen; lia | exact Hp | intros y [] |].
        intros y Hy. right. right. exact Hy.
Qed.

Lemma trim_all_trimmable (p : jsstring) :
  Forall (fun c => isTrimmable c = true) p -> trim p = [].
Proof.
  intros H. unfold trim, trimEnd.
  rewrite <- (app_nil_r p), (@trimStart_skip p [] H). reflexivity.
Qed.

Lemma normalize_blank (ws : jsstring) :
  Forall (fun c => isTrimmable c = true) ws -> normalize ws = [].
Proof.
  intros Hws. unfold normalize, split_lines. apply filter_none.
  intros l Hl. apply in_map_iff in Hl. destruct Hl as (p & <- & Hp).
  rewrite trim_all_trimmable; [reflexivity|].
  apply Forall_forall. intros x Hx.
  destruct (@split_from_In (length ws) ws [] (le_n _) p x Hp Hx) as [[]|H].
  apply (proj1 (Forall_forall _ ws) Hws). exact H.
Qed.

Lemma normalize_app_lf (a b : jsstring) :
  normalize (a ++ 10%N :: b) = normalize a ++ normalize b.
Proof.
  unfold normalize, split_lines.
  destruct (@split_from_app_lf (length a) b a [] (le_n _))
    as (ps & lp & lp' & E1 & E2 & Hl).
  rewrite E1, E2.
  change (ps ++ lp' :: split_from [] b) with (ps ++ [lp'] ++ split_from [] b).
  rewrite !map_app, !filter_app, <- app_assoc. do 2 f_equal.
  destruct Hl as [->| ->]; [reflexivity|].
  simpl map. rewrite trim_app_trimmable by reflexivity. reflexivity.
Qed.

Lemma normalize_app_cr (a : jsstring) : normalize (a ++ [13%N]) = normalize a.
Proof.
  unfold normalize, split_lines.
  destruct (@split_from_app_cr (length a) a [] (le_n _)) as (ps & lp & E1 & E2).
  rewrite E1, E2, !map_app, !filter_app. f_equal.
  simpl map. rewrite trim_app_trimmable by reflexivity. reflexivity.
Qed.

Lemma normalize_app_eol (crlf : bool) (a b : jsstring) :
  normalize (a ++ eol crlf ++ b) = normalize a ++ normalize b.
Proof.
  destruct crlf; simpl.
  - change (a ++ 13%N :: 10%N :: b) with (a ++ [13%N] ++ 10%N :: b).
    rewrite app_assoc, normalize_app_lf, normalize_app_cr. reflexivity.
  - apply normalize_app_lf.
Qed.

Lemma normalize_clean_line (l : jsstring) : clean l -> normalize l = [l].
Proof.
  intros (Hne & Htrim & Hlf). unfold normalize, split_lines.
  rewrite split_from_one_piece by exact Hlf. simpl. rewrite Htrim.
  destruct l; [congruence | reflexivity].
Qed.

Lemma normalize_unlines (crlf : bool) (ls : list jsstring) :
  Forall clean ls -> normalize (unlines crlf ls) = ls.
Proof.
  induction 1 as [|l ls Hl _ IH]; [reflexivity|].
  unfold unlines in *. simpl flat_map.
  rewrite <- app_assoc, normalize_app_eol, IH, normalize_clean_line by exact Hl.
  reflexivity.
Qed.

Lemma normalize_lines_clean (text : jsstring) : Forall clean (normalize text).
Proof.
  unfold normalize. apply Forall_forall. intros l Hl.
  apply filter_In in Hl. destruct Hl as [Hl Hb].
  apply in_map_iff in Hl. destruct Hl as (p & <- & Hp).
  split; [|split].
  - destruct (trim p); [discriminate | discriminate].
  - apply trim_idem.
  - intros H. apply trim_In in H.
    pose proof (@split_from_no_lf_pieces (length text) text [] (le_n _)
                  (fun F => F)) as Hall.
    apply (proj1 (Forall_forall _ _) Hall p Hp). exact H.
Qed.

(** ** More on the parser *)

Lemma line_starts_bound (lines : list jsstring) (j : nat) (p : jsstring) :
  line_starts lines j p = true -> j < length lines.
Proof.
  intros H. apply line_starts_some in H. destruct H as (l & El & _).
  apply nth_error_Some. congruence.
Qed.

(** A property of the index and of the records pushed so far that every
    pass keeps holds when the scan is over. *)
Lemma scan_invariant_ix (lines : list jsstring) (P : nat -> list ElementSet -> Prop) :
  (forall i out, i < length lines -> P i out ->
     (pair_at lines i = true -> P (i + 2) (out ++ [auto_named lines i out]))
     /\ (pair_at lines i = false -> triple_at lines i = true ->
         P (i + 3) (out ++ [named lines i]))
     /\ (pair_at lines i = false -> triple_at lines i = false -> P (i + 1) out)) ->
  forall fuel i out res, P i out -> scan fuel lines i out = Done res ->
    exists i', length lines <= i' /\ P i' res.
Proof.
  intros Hstep. induction fuel as [|fuel IH]; intros i out res HP; simpl.
  - destruct (Nat.ltb_spec i (length lines)); [discriminate|].
    intros E. injection E as <-. exists i. split; assumption.
  - destruct (Nat.ltb_spec i (length lines)) as [Hi|Hi].
    + rewrite (loop_body_eq lines out Hi). simpl.
      destruct (Hstep i out Hi HP) as (Hp & Ht & Hs).
      destruct (pair_at lines i) eqn:Ep.
      * apply IH. apply Hp. reflexivity.
      * destruct (triple_at lines i) eqn:Et.
        -- apply IH. apply Ht; reflexivity.
        -- apply IH. apply Hs; reflexivity.
    + intros E. injection E as <-. exists i. split; assumption.
Qed.

Lemma uint_units_inj (u v : Decimal.uint) : uint_units u = uint_units v -> u = v.
Proof.
  revert v. induction u; destruct v; simpl; intros E;
    try discriminate; try reflexivity;
    injection E as E; f_equal; apply IHu; exact E.
Qed.

Lemma Number_toString_inj (j k : nat) : Number_toString j = Number_toString k -> j = k.
Proof.
  unfold Number_toString. intros E.
  apply DecimalNat.Unsigned.to_uint_inj, uint_units_inj. exact E.
Qed.

Lemma spaced_snoc (js : list nat) (k : nat) :
  forall from, spaced from js -> Forall (fun j => j + 2 <= k) js -> from <= k ->
    spaced from (js ++ [k]).
Proof.
  induction js as [|j js IH]; intros from Hs Hall Hk; simpl.
  - split; [exact Hk | exact I].
  - destruct Hs as [Hj Hs]. split; [exact Hj|].
    apply IH; [exact Hs | exact (Forall_inv_tail Hall) |].
    exact (Forall_inv Hall).
Qed.

(** The scan over a run of well-formed groups that starts at the index
    where [pre] ends pushes their records, in order. *)
Lemma scan_groups (gs : list Group) :
  Forall group_ok gs ->
  forall pre out fuel,
    length (flat_map group_lines gs) <= fuel ->
    scan fuel (pre ++ flat_map group_lines gs) (length pre) out =
      Done (out ++ records_from (length out) gs).
Proof.
  induction 1 as [|g gs Hg _ IH]; intros pre out fuel Hfuel.
  - simpl. rewrite !app_nil_r.
    destruct fuel; simpl; rewrite Nat.ltb_irrefl; reflexivity.
  - assert (Hi : length pre < length (pre ++ flat_map group_lines (g :: gs))).
    { rewrite length_app. destruct g; simpl; lia. }
    assert (Hnth : forall k, nth_error (pre ++ flat_map group_lines (g :: gs))
                               (length pre + k)
                             = nth_error (group_lines g ++ flat_map group_lines gs) k).
    { intros k. rewrite nth_error_app2 by lia. f_equal. lia. }
    destruct fuel as [|fuel]; [destruct g; simpl in Hfuel; lia|].
    cbn [scan]. destruct (Nat.ltb_spec (length pre)
      (length (pre ++ flat_map group_lines (g :: gs)))) as [_|Hge]; [|lia].
    rewrite (loop_body_eq _ out Hi).
    unfold pair_at, triple_at, line_starts, auto_named, named.
    pose proof (Hnth 0) as Hn0. rewrite Nat.add_0_r in Hn0.
    rewrite !Hn0, !(Hnth 1), !(Hnth 2).
    destruct g as [l1 l2|n l1 l2]; simpl in Hg.
    + destruct Hg as [H1 H2]. simpl. rewrite H1, H2. simpl.
      replace (length pre + 2) with (length (pre ++ [l1; l2]))
        by (rewrite length_app; reflexivity).
      change (pre ++ l1 :: l2 :: flat_map group_lines gs)
        with (pre ++ [l1; l2] ++ flat_map group_lines gs).
      rewrite app_assoc, IH by (simpl in Hfuel; lia).
      rewrite length_app, <- app_assoc. reflexivity.
    + destruct Hg as (H0 & H1 & H2). simpl. rewrite H0, H1, H2. simpl.
      replace (length pre + 3) with (length (pre ++ [n; l1; l2]))
        by (rewrite length_app; reflexivity).
      change (pre ++ n :: l1 :: l2 :: flat_map group_lines gs)
        with (pre ++ [n; l1; l2] ++ flat_map group_lines gs).
      rewrite app_assoc, IH by (simpl in Hfuel; lia).
      rewrite length_app, <- app_assoc. reflexivity.
Qed.

Ltac clean_line :=
  split; [discriminate | split; [reflexivity | simpl; intuition discriminate]].

(** X1: every line [parseTLEText] scans is a line that is not empty, that
    [trim] leaves as it is, and that holds no line feed: blank lines and
    surrounding blanks never reach the scan. *)
Theorem normalized_lines_are_clean :
  forall text, Forall clean (normalize text).
Proof. exact normalize_lines_clean. Qed.

(** X2: the normalized lines of a text cut at a line end (a line feed,
    with or without a carriage return before it) are those of the part
    before followed by those of the part after. *)
Theorem normalize_splits_at_line_ends :
  forall crlf a b,
    normalize (a ++ eol crlf ++ b) = normalize a ++ normalize b.
Proof. exact normalize_app_eol. Qed.

(** X3: rows made only of code units that [trim] removes change nothing:
    between two rows, before the first row or after the last one, the
    parse is the same with and without them. *)
Theorem blank_rows_are_ignored (c1 c2 : bool) (a ws b : jsstring) :
  Forall (fun c => isTrimmable c = true) ws ->
  parseTLEText (a ++ eol c1 ++ ws ++ eol c2 ++ b) = parseTLEText (a ++ eol c2 ++ b)
  /\ parseTLEText (ws ++ eol c2 ++ b) = parseTLEText b
  /\ parseTLEText (a ++ eol c1 ++ ws) = parseTLEText a.
Proof.
  intros Hws. unfold parseTLEText.
  rewrite !normalize_app_eol, (normalize_blank Hws), app_nil_r.
  repeat split; reflexivity.
Qed.

Lemma blank_rows_are_ignored_witness :
  parseTLEText (lit "ISS" ++ eol true ++ [32; 9; 32]%N ++ eol false ++ lit "1 a
2 b")
  = parseTLEText (lit "ISS" ++ eol false ++ lit "1 a
2 b").
Proof.
  apply (blank_rows_are_ignored true false (lit "ISS") (ws := [32; 9; 32]%N)).
  repeat constructor.
Defined.

(** X4: a text written one clean line a row, each row ended by a line
    feed or by a carriage return and a line feed, normalizes to these
    lines. *)
Theorem clean_lines_read_back (crlf : bool) (ls : list jsstring) :
  Forall clean ls -> normalize (unlines crlf ls) = ls.
Proof. apply normalize_unlines. Qed.

Lemma clean_lines_read_back_witness :
  normalize (unlines true [lit "NOAA 19"; lit "1 x"; lit "2 y  z"])
  = [lit "NOAA 19"; lit "1 x"; lit "2 y  z"].
Proof.
  apply (clean_lines_read_back true).
  repeat (apply Forall_cons; [clean_line|]). apply Forall_nil.
Defined.

(** X5: a file of well-formed groups, one clean line a row, parses back to
    the records of its groups in order: a named group keeps its name and a
    bare pair takes the generated name of its position among all records. *)
Theorem groups_parse_back (crlf : bool) (gs : list Group) :
  Forall group_ok gs ->
  Forall clean (flat_map group_lines gs) ->
  parseTLEText (unlines crlf (flat_map group_lines gs)) = Done (records_from 0 gs).
Proof.
  intros Hok Hclean. unfold parseTLEText, parseLines.
  rewrite normalize_unlines by exact Hclean.
  apply (scan_groups Hok [] []). lia.
Qed.

Lemma groups_parse_back_witness :
  parseTLEText (unlines false (flat_map group_lines
     [Named (lit "ISS (ZARYA)") (lit "1 25544U") (lit "2 25544");
      Bare (lit "1 00005U") (lit "2 00005")]))
  = Done [ {| name := Some (lit "ISS (ZARYA)");
              tle1 := Some (lit "1 25544U"); tle2 := Some (lit "2 25544") |};
           {| name := Some (lit "SAT 2");
              tle1 := Some (lit "1 00005U"); tle2 := Some (lit "2 00005") |} ].
Proof.
  apply (@groups_parse_back false
           [Named (lit "ISS (ZARYA)") (lit "1 25544U") (lit "2 25544");
            Bare (lit "1 00005U") (lit "2 00005")]).
  - repeat constructor.
  - repeat (apply Forall_cons; [clean_line|]). apply Forall_nil.
Defined.

(** X6: every record takes at least two lines of the input: a parse
    returns at most half as many records as there are normalized lines. *)
Theorem records_take_two_lines :
  forall text, exists out,
    parseTLEText text = Done out /\ 2 * length out <= length (normalize text).
Proof.
  intros text. unfold parseTLEText, parseLines.
  set (lines := normalize text).
  destruct (@scan_completes lines (length lines) 0 []) as (out & E & _); [lia|].
  exists out. split; [exact E|].
  destruct (@scan_invariant_ix lines
              (fun i out => 2 * length out <= i /\ i <= length lines))
    with (2 := conj (Nat.le_0_l 0) (Nat.le_0_l (length lines))) (3 := E)
    as (i' & Hi' & Hle & Hin); [|lia].
  intros i out0 Hi [H2 _]. split; [|split].
  - intros Hp. unfold pair_at in Hp. apply andb_true_iff in Hp.
    destruct Hp as [_ Hp]. apply line_starts_bound in Hp.
    rewrite length_app. simpl. lia.
  - intros _ Ht. unfold triple_at in Ht. apply andb_true_iff in Ht.
    destruct Ht as [_ Ht]. apply line_starts_bound in Ht.
    rewrite length_app. simpl. lia.
  - intros _ _. lia.
Qed.

(** X7: the records of a parse follow the input: each record's two
    element lines are two rows of the normalized input, one right after
    the other; its name is a generated one or the row just before them;
    and from one record to the next these rows lie further down, no row
    serving two records as an element line. *)
Theorem records_follow_input_order :
  forall text, exists out js,
    parseTLEText text = Done out
    /\ Forall2 (fun j e =>
                  j + 1 < length (normalize text)
                  /\ tle1 e = nth_error (normalize text) j
                  /\ tle2 e = nth_error (normalize text) (j + 1)
                  /\ ((exists k, name e = Some (lit "SAT " ++ Number_toString k))
                      \/ (1 <= j /\ name e = nth_error (normalize text) (j - 1))))
         js out
    /\ spaced 0 js.
Proof.
  intros text. unfold parseTLEText, parseLines.
  set (lines := normalize text).
  destruct (@scan_completes lines (length lines) 0 []) as (out & E & _); [lia|].
  exists out.
  set (R := fun j e =>
              j + 1 < length lines
              /\ tle1 e = nth_error lines j
              /\ tle2 e = nth_error lines (j + 1)
              /\ ((exists k, name e = Some (lit "SAT " ++ Number_toString k))
                  \/ (1 <= j /\ name e = nth_error lines (j - 1)))).
  destruct (@scan_invariant_ix lines
              (fun i out => exists js,
                   Forall2 R js out /\ spaced 0 js
                   /\ Forall (fun j => j + 2 <= i) js))
    with (3 := E) as (i' & _ & js & HR & Hsp & _).
  - intros i out0 Hi (js & HR & Hsp & Hall).
    assert (Hmono : forall d, Forall (fun j => j + 2 <= i + d) js).
    { intros d. eapply Forall_impl; [|exact Hall]. simpl. intros j Hj. lia. }
    split; [|split].
    + intros Hp. unfold pair_at in Hp. apply andb_true_iff in Hp.
      destruct Hp as [_ Hp]. apply line_starts_bound in Hp.
      exists (js ++ [i]). split; [|split].
      * apply Forall2_app; [exact HR|]. constructor; [|constructor].
        unfold R, auto_named; simpl. repeat split; try lia.
        left. eexists. reflexivity.
      * apply spaced_snoc; [exact Hsp | exact Hall | lia].
      * apply Forall_app. split; [apply Hmono|]. constructor; [lia | constructor].
    + intros _ Ht. unfold triple_at in Ht. apply andb_true_iff in Ht.
      destruct Ht as [_ Ht]. apply line_starts_bound in Ht.
      exists (js ++ [i + 1]). split; [|split].
      * apply Forall2_app; [exact HR|]. constructor; [|constructor].
        unfold R, named; simpl. repeat split; try lia.
        -- rewrite <- Nat.add_assoc. reflexivity.
        -- right. split; [lia|]. rewrite Nat.add_sub. reflexivity.
      * apply spaced_snoc; [exact Hsp | | lia].
        eapply Forall_impl; [|exact Hall]. simpl. intros j Hj. lia.
      * apply Forall_app. split; [apply Hmono|]. constructor; [lia | constructor].
    + intros _ _. exists js. split; [exact HR|]. split; [exact Hsp | apply Hmono].
  - exists []. split; [constructor|]. split; [exact I | constructor].
  - exists js. split; [exact E|]. split; [exact HR | exact Hsp].
Qed.

(** X8: two generated names of one parse never coincide: when two records
    at different positions carry the same name, that name is a row of the
    input (one that does not start with "1 "). *)
Theorem equal_names_come_from_the_file
    (text : jsstring) (out : list ElementSet) (j k : nat) (e1 e2 : ElementSet) :
  parseTLEText text = Done out ->
  nth_error out j = Some e1 ->
  nth_error out k = Some e2 ->
  j <> k ->
  name e1 = name e2 ->
  exists l, name e1 = Some l /\ In l (normalize text)
            /\ startsWith l (lit "1 ") = false.
Proof.
  intros Hparse H1 H2 Hjk Heq.
  assert (Hacc : names_accounted (normalize text) out).
  { unfold parseTLEText, parseLines in Hparse.
    eapply names_accounted_scan; [|exact Hparse].
    intros n e Hn. destruct n; discriminate. }
  destruct (Hacc j e1 H1) as [Hg1|Hl1]; [|exact Hl1].
  destruct (Hacc k e2 H2) as [Hg2|(l & El & Hin & Hs)].
  - exfalso. rewrite Hg1, Hg2 in Heq. injection Heq as Heq.
    apply Number_toString_inj in Heq. lia.
  - exists l. rewrite Heq. auto.
Qed.

Lemma equal_names_come_from_the_file_witness :
  exists l, Some (lit "SAT 2") = Some l
            /\ In l (normalize (lit "SAT 2
1 a
2 b
1 c
2 d"))
            /\ startsWith l (lit "1 ") = false.
Proof.
  apply (@equal_names_come_from_the_file
           (lit "SAT 2
1 a
2 b
1 c
2 d")
           [ {| name := Some (lit "SAT 2"); tle1 := Some (lit "1 a"); tle2 := Some (lit "2 b") |};
             {| name := Some (lit "SAT 2"); tle1 := Some (lit "1 c"); tle2 := Some (lit "2 d") |} ]
           0 1
           {| name := Some (lit "SAT 2"); tle1 := Some (lit "1 a"); tle2 := Some (lit "2 b") |}
           {| name := Some (lit "SAT 2"); tle1 := Some (lit "1 c"); tle2 := Some (lit "2 d") |});
    try reflexivity.
  discriminate.
Defined.

(** ** Loading *)

(** X9: [loadTLEsFromPublic] throws only when the source cannot be read:
    a rejected [fetch] is thrown on as it is, a response that is not ok
    throws "Failed to load <file>: <status>" whatever its body, and a
    response that is ok never throws, whatever its text. *)
Theorem load_fails_only_on_source (file : jsstring) (res : FetchResult) :
  (forall e,
      loadTLEsFromPublic file res = Throw e <->
      res = Rejected e
      \/ exists status text,
           res = Response false status text
           /\ e = Error (lit "Failed to load " ++ file ++ lit ": "
                         ++ Number_toString status))
  /\ loadTLEsFromPublic file res <> OutOfFuel.
Proof.
  destruct res as [e0|ok status text]; simpl.
  - split; [|discriminate]. intros e. split.
    + intros E. injection E as <-. left. reflexivity.
    + intros [E|(s & t & E & _)]; [|discriminate]. injection E as <-. reflexivity.
  - destruct ok; simpl.
    + unfold parseTLEText, parseLines.
      destruct (@scan_completes (normalize text) (length (normalize text)) 0 [])
        as (out & E & _); [lia|].
      rewrite E. split; [|discriminate]. intros e. split; [discriminate|].
      intros [H|(s & t & H & _)]; discriminate.
    + split; [|discriminate]. intros e. split.
      * intros E. injection E as <-. right. exists status, text.
        split; reflexivity.
      * intros [H|(s & t & H & ->)]; [discriminate|].
        injection H as <- _. reflexivity.
Qed.


(** ** More on the sampler *)

Lemma Forall2_map_right {A B : Type} (P : A -> B -> Prop) (f : A -> B) (l : list A) :
  (forall x, In x l -> P x (f x)) -> Forall2 P l (map f l).
Proof.
  induction l as [|x l IH]; intros H; simpl; constructor.
  - apply H. left. reflexivity.
  - apply IH. intros y Hy. apply H. right. exact Hy.
Qed.

Lemma passes_session (s : Z) :
  (7199 <= s <= 7200)%Z ->
  720 <= passes 10 s <= 721 /\ 240 <= passes 30 s <= 241.
Proof.
  intros H. assert (E : (s = 7199 \/ s = 7200)%Z) by lia.
  destruct E as [-> | ->].
  - change (passes 10 7199) with 720. change (passes 30 7199) with 240. lia.
  - change (passes 10 7200) with 721. change (passes 30 7200) with 241. lia.
Qed.

Section SamplerMore.

Context {L : Libraries}.
Variable w : TimeWindow.

Lemma span_nonneg : (start w <= stop w)%Z -> (0 <= secondsDifference (stop w) (start w))%Z.
Proof.
  intros Hle. destruct (Z.eq_dec (stop w) (start w)) as [->|Hne].
  - rewrite secondsDifference_same. lia.
  - pose proof (secondsDifference_lower (stop w) (start w)). lia.
Qed.

(** The conversions return [pos] when each of the three library calls
    returns. *)
Lemma convert_done (p : eci) (tm : JulianDate) (pos : Cartesian3) :
  convert p tm = Done pos <->
  exists lon lat,
    degreesLong (longitude (eciToGeodetic p (gstime (toDate tm)))) = Returns lon
    /\ degreesLat (latitude (eciToGeodetic p (gstime (toDate tm)))) = Returns lat
    /\ fromDegrees lon lat (mul (height (eciToGeodetic p (gstime (toDate tm)))) (num 1000))
       = Returns pos.
Proof.
  unfold convert.
  destruct (degreesLong _) as [lon|e1]; simpl.
  - destruct (degreesLat _) as [lat|e2]; simpl.
    + split.
      * intros E. exists lon, lat. split; [reflexivity|]. split; [reflexivity|].
        destruct (fromDegrees _ _ _); simpl in E; congruence.
      * intros (lon' & lat' & E1 & E2 & E3).
        injection E1 as <-. injection E2 as <-. rewrite E3. reflexivity.
    + split; [discriminate|]. intros (lon' & lat' & _ & E2 & _). discriminate.
  - split; [discriminate|]. intros (lon' & lat' & E1 & _). discriminate.
Qed.

Lemma in_sample_at (rec : satrec) (t : Z) (tm : JulianDate) (pos : Cartesian3) :
  In (tm, pos) (sample_at w rec t) <->
  tm = addSeconds (start w) t
  /\ exists p, propagate rec (toDate tm) = Some {| prop_position := Some p |}
               /\ convert p tm = Done pos.
Proof.
  unfold sample_at.
  destruct (propagate_cases rec (toDate (addSeconds (start w) t))) as [E|[E|[p E]]].
  - rewrite sample_body_null by exact E.
    split; [intros []|]. intros (-> & p & Ep & _). congruence.
  - rewrite sample_body_skip by exact E.
    split; [intros []|]. intros (-> & p & Ep & _). congruence.
  - rewrite (@sample_body_solved L w rec t [] p E).
    destruct (convert p (addSeconds (start w) t)) as [cart|err|] eqn:Ec; simpl.
    + split.
      * intros [H|[]]. injection H as <- <-. split; [reflexivity|].
        exists p. split; [exact E | exact Ec].
      * intros (-> & p' & Ep' & Ec'). left.
        rewrite E in Ep'. injection Ep' as <-. rewrite Ec in Ec'.
        injection Ec' as <-. reflexivity.
    + split; [intros []|]. intros (-> & p' & Ep' & Ec').
      rewrite E in Ep'. injection Ep' as <-. congruence.
    + split; [intros []|]. intros (-> & p' & Ep' & Ec').
      rewrite E in Ep'. injection Ep' as <-. congruence.
Qed.

Lemma stored_solved (rec : satrec) (t : Z) (p : eci) (cart : Cartesian3) :
  propagate rec (toDate (addSeconds (start w) t)) = Some {| prop_position := Some p |} ->
  convert p (addSeconds (start w) t) = Done cart ->
  sample_step w rec t = Done [(addSeconds (start w) t, cart)]
  /\ stored w rec t = true.
Proof.
  intros E Ec. unfold stored, sample_at, sample_step.
  rewrite (@sample_body_solved L w rec t [] p E), Ec. split; reflexivity.
Qed.

Lemma stored_skipped (rec : satrec) (t : Z) :
  skipped w rec t = true ->
  sample_step w rec t = Done [] /\ stored w rec t = false.
Proof.
  unfold skipped. intros H.
  destruct (propagate rec (toDate (addSeconds (start w) t))) as [[[p|]]|] eqn:E;
    try discriminate.
  unfold stored, sample_at, sample_step.
  rewrite sample_body_skip by exact E. split; reflexivity.
Qed.

(** When every pass completes, the trajectory is what the passes store. *)
Lemma sampleTrajectory_complete (e : ElementSet) :
  (forall t, In t (grid 0 10 (passes 10 (secondsDifference (stop w) (start w)))) ->
     exists x, sample_step w (satrec_of e) t = Done x) ->
  sampleTrajectory w e =
    Done (flat_map (sample_at w (satrec_of e))
            (grid 0 10 (passes 10 (secondsDifference (stop w) (start w))))).
Proof.
  intros Hall. rewrite sampleTrajectory_run. apply (collect_complete _ _ Hall).
Qed.

(** When every sampler completes, the satellites are all there. *)
Lemma scene_sampled (tles : list ElementSet) :
  (forall e, In e tles -> exists trajectory, sampleTrajectory w e = Done trajectory) ->
  scene_after_load w tles = loaded_world w tles.
Proof.
  intros Hall. unfold scene_after_load.
  destruct (sats_until_throw_spec w tles) as (m & _ & _ & _ & Hend).
  destruct Hend as [[-> _]|(e & err & _ & _ & Hnth & Hthrow)]; [reflexivity|].
  destruct (Hall e (nth_error_In _ _ Hnth)) as [tr Es]. congruence.
Qed.

End SamplerMore.

(** X10: a trajectory the sampler returns has one sample for each sampled
    instant at which propagation has a position, and so at most one for
    each of the floor(span / 10) + 1 instants of the loop. *)
Theorem trajectory_counts_solutions {L : Libraries} (w : TimeWindow) (e : ElementSet)
    (trajectory : SampledPositionProperty) :
  let span := secondsDifference (stop w) (start w) in
  sampleTrajectory w e = Done trajectory ->
  length trajectory =
    length (filter (succeeds w (satrec_of e)) (grid 0 10 (passes 10 span)))
  /\ length trajectory <= passes 10 span.
Proof.
  intros span Es.
  destruct (sampleTrajectory_done w e Es) as (-> & _ & Hstored). fold span in Hstored.
  fold span. rewrite samples_length.
  rewrite (filter_same (stored w (satrec_of e)) (succeeds w (satrec_of e)))
    by (intros t Ht; apply (Hstored t Ht)).
  split; [reflexivity|].
  rewrite <- (grid_length 0 10 (passes 10 span)) at 2. apply filter_length_le.
Qed.

Lemma trajectory_counts_solutions_witness :
  exists trajectory,
    sampleTrajectory (L := Fake.fake (Fake.decays_after 20))
      {| start := 0%Z; stop := 60%Z |} Fake.iss_tle = Done trajectory
    /\ length trajectory = 3
    /\ length trajectory <= 7.
Proof.
  assert (Es : sampleTrajectory (L := Fake.fake (Fake.decays_after 20))
                 {| start := 0%Z; stop := 60%Z |} Fake.iss_tle
               = Done [(0, (0, 0, 400000)); (10, (10, 10, 400000));
                       (20, (20, 20, 400000))]%Z) by reflexivity.
  eexists. split; [exact Es|].
  exact (trajectory_counts_solutions (L := Fake.fake (Fake.decays_after 20))
           {| start := 0%Z; stop := 60%Z |} Fake.iss_tle Es).
Defined.

(** X11: a sample is in a trajectory the sampler returns exactly when its
    instant is a sampled instant at which propagation has a position and
    its value is what [fromDegrees] returns for that position turned into
    geodetic degrees, with the height, given in kilometres, multiplied by
    1000. *)
Theorem samples_are_converted_solutions {L : Libraries} (w : TimeWindow) (e : ElementSet)
    (trajectory : SampledPositionProperty) :
  let span := secondsDifference (stop w) (start w) in
  sampleTrajectory w e = Done trajectory ->
  forall tm pos,
    In (tm, pos) trajectory <->
    exists t p lon lat,
      In t (grid 0 10 (passes 10 span))
      /\ tm = addSeconds (start w) t
      /\ propagate (satrec_of e) (toDate tm) = Some {| prop_position := Some p |}
      /\ degreesLong (longitude (eciToGeodetic p (gstime (toDate tm)))) = Returns lon
      /\ degreesLat (latitude (eciToGeodetic p (gstime (toDate tm)))) = Returns lat
      /\ fromDegrees lon lat
           (mul (height (eciToGeodetic p (gstime (toDate tm)))) (num 1000))
         = Returns pos.
Proof.
  intros span Es tm pos.
  destruct (sampleTrajectory_done w e Es) as (-> & _ & _). fold span.
  rewrite in_flat_map. split.
  - intros (t & Ht & Hin). apply in_sample_at in Hin.
    destruct Hin as (Etm & p & Ep & Ec). apply convert_done in Ec.
    destruct Ec as (lon & lat & E1 & E2 & E3).
    exists t, p, lon, lat. repeat split; assumption.
  - intros (t & p & lon & lat & Ht & Etm & Ep & E1 & E2 & E3).
    exists t. split; [exact Ht|].
    apply in_sample_at. split; [exact Etm|]. exists p. split; [exact Ep|].
    apply convert_done. exists lon, lat. repeat split; assumption.
Qed.

Lemma samples_are_converted_solutions_witness :
  In (10, (10, 10, 400000))%Z
     [(0, (0, 0, 400000)); (10, (10, 10, 400000)); (20, (20, 20, 400000))]%Z
  <-> exists t p lon lat,
        In t (grid 0 10 (passes 10 (Fake.measure false 20%Z 0%Z)))
        /\ 10%Z = addSeconds 0%Z t
        /\ Fake.nullish (fun _ => true) (toDate 10%Z)
           = Some {| prop_position := Some p |}
        /\ Returns p = Returns lon
        /\ Returns (toDate 10%Z) = Returns lat
        /\ Returns (lon, lat, (400 * 1000)%Z) = Returns (10, 10, 400000)%Z.
Proof.
  apply (@samples_are_converted_solutions (Fake.fake_null (fun _ => true))
           {| start := 0%Z; stop := 20%Z |} Fake.iss_tle
           [(0, (0, 0, 400000)); (10, (10, 10, 400000)); (20, (20, 20, 400000))]%Z).
  reflexivity.
Defined.

(** X12: a window that stops before it starts gives no sample and no
    ground-track point, and nothing is thrown, not even for an entity
    without position; a window that stops when it starts is sampled once,
    at its start: the sampler does what the pass at offset 0 does. *)
Theorem degenerate_windows {L : Libraries} (w : TimeWindow) (e : ElementSet) :
  ((stop w < start w)%Z ->
     sampleTrajectory w e = Done []
     /\ forall position, groundTrack w position = Done [])
  /\ (stop w = start w ->
        sampleTrajectory w e = sample_body w (satrec_of e) 0 []).
Proof.
  split.
  - intros Hneg.
    assert (Hspan : (secondsDifference (stop w) (start w) < 0)%Z)
      by (pose proof (secondsDifference_upper (stop w) (start w)); lia).
    split; [|intros position];
      unfold sampleTrajectory, sample_with, groundTrack, track_with;
      match goal with |- for_upto ?f _ _ _ _ _ = _ => destruct f end;
      simpl; destruct (Z.leb_spec 0 (secondsDifference (stop w) (start w)));
      (lia || reflexivity).
  - intros Heq. rewrite sampleTrajectory_run, Heq, secondsDifference_same.
    change (grid 0 10 (passes 10 0)) with [0%Z]. cbn [collect].
    unfold sample_step. destruct (sample_body w (satrec_of e) 0 []); simpl;
      rewrite ?app_nil_r; reflexivity.
Qed.

Lemma degenerate_windows_witness :
  sampleTrajectory (L := Fake.fake_null (fun _ => true))
    {| start := 100%Z; stop := 40%Z |} Fake.iss_tle = Done []
  /\ sampleTrajectory (L := Fake.fake_null (fun _ => true))
       {| start := 100%Z; stop := 100%Z |} Fake.iss_tle
     = Done [(100%Z, (100%Z, 100%Z, 400000%Z))].
Proof.
  split.
  - apply (proj1 (degenerate_windows (L := Fake.fake_null (fun _ => true))
                    {| start := 100%Z; stop := 40%Z |} Fake.iss_tle)).
    simpl. lia.
  - apply (proj2 (degenerate_windows (L := Fake.fake_null (fun _ => true))
                    {| start := 100%Z; stop := 100%Z |} Fake.iss_tle)).
    reflexivity.
Defined.

(** X13: the ground-track loop does not guard the cartographic
    projection: when, at an instant of the 30-second pass, the position
    property has a value whose projection is undefined, the whole ground
    track is lost to a [TypeError]; so it is for an entity without
    position property, as soon as the window has an instant. *)
Theorem undefined_projection_throws {L : Libraries} (w : TimeWindow) :
  let span := secondsDifference (stop w) (start w) in
  (forall position t cart,
      In t (grid 0 30 (passes 30 span)) ->
      getValue position (addSeconds (start w) t) = Some cart ->
      cartesianToCartographic cart = None ->
      groundTrack w (Some position) = Throw TypeError)
  /\ ((start w <= stop w)%Z -> groundTrack w None = Throw TypeError).
Proof.
  intros span. split.
  - intros position t cart Ht Hget Hproj. unfold groundTrack, track_with. fold span.
    apply (@for_upto_throws 30 span ltac:(lia) _ _ TypeError
             (track_body_cases w (Some position))) with (u := t).
    + rewrite remaining_0. lia.
    + rewrite remaining_0. exact Ht.
    + intros s. unfold track_body. simpl. rewrite Hget, Hproj. reflexivity.
  - intros Hle. unfold groundTrack, track_with. fold span.
    assert (Hspan : (0 <= span)%Z) by (apply span_nonneg; exact Hle).
    apply (@for_upto_throws 30 span ltac:(lia) _ _ TypeError
             (track_body_cases w None)) with (u := 0%Z).
    + rewrite remaining_0. lia.
    + rewrite remaining_0. apply grid_In. exists 0. split; [|reflexivity].
      unfold passes. assert (0 <= span / 30)%Z by (apply Z.div_pos; lia). lia.
    + intros s. reflexivity.
Qed.

Lemma undefined_projection_throws_witness :
  groundTrack (L := Fake.without_projection (fun _ => true))
    {| start := 0%Z; stop := 60%Z |} (Some [(0, (1, 2, 3)); (60, (4, 5, 6))]%Z)
  = Throw TypeError.
Proof.
  apply (proj1 (undefined_projection_throws (L := Fake.without_projection (fun _ => true))
                  {| start := 0%Z; stop := 60%Z |})
           [(0, (1, 2, 3)); (60, (4, 5, 6))]%Z 0%Z (1, 2, 3)%Z).
  - vm_compute. left. reflexivity.
  - reflexivity.
  - reflexivity.
Defined.

(** X14: every point of a ground track lies at height 0 under a value of
    the position property: it is built from the longitude and the latitude
    of the projection of that value, taken at an instant of the 30-second
    pass. *)
Theorem ground_track_points_at_zero_height {L : Libraries}
    (w : TimeWindow) (position : SampledPositionProperty) (track : list Cartesian3) :
  groundTrack w (Some position) = Done track ->
  Forall (fun point =>
            exists t cart carto,
              In t (grid 0 30 (passes 30 (secondsDifference (stop w) (start w))))
              /\ getValue position (addSeconds (start w) t) = Some cart
              /\ cartesianToCartographic cart = Some carto
              /\ point = fromRadians (longitude carto) (latitude carto) (num 0))
         track.
Proof.
  unfold groundTrack, track_with.
  apply (@for_upto_inv 30 (secondsDifference (stop w) (start w)) ltac:(lia) _
           (track_body w (Some position))); [|constructor].
  intros u s s' Hu Hs. rewrite remaining_0 in Hu.
  unfold track_body. simpl.
  destruct (getValue position (addSeconds (start w) u)) as [cart|] eqn:Eg.
  - destruct (cartesianToCartographic cart) as [carto|] eqn:Ec; simpl; [|discriminate].
    intros E. injection E as <-. apply Forall_app. split; [exact Hs|].
    constructor; [|constructor]. exists u, cart, carto. auto.
  - intros E. injection E as <-. exact Hs.
Qed.

Lemma ground_track_points_at_zero_height_witness :
  Forall (fun point =>
            exists t cart carto,
              In t (grid 0 30 (passes 30 (Fake.measure false 60%Z 0%Z)))
              /\ Fake.range_getValue [(0, (1, 2, 3)); (60, (4, 5, 6))]%Z (0 + t)%Z = Some cart
              /\ Some {| longitude := fst (fst cart); latitude := snd (fst cart);
                         height := snd cart |} = Some carto
              /\ point = (longitude carto, latitude carto, 0%Z))
         [(1, 2, 0); (1, 2, 0); (4, 5, 0)]%Z.
Proof.
  apply (@ground_track_points_at_zero_height (Fake.fake (fun _ => true))
           {| start := 0%Z; stop := 60%Z |} [(0, (1, 2, 3)); (60, (4, 5, 6))]%Z).
  reflexivity.
Defined.

(** ** More on the rendering driver *)

(** X15: [init] always completes and never leaves the globe without an
    entity: whatever the response and the libraries, the scene holds the
    notice, an error label or the satellites. *)
Theorem init_always_shows_something {L : Libraries} (w : TimeWindow) (res : FetchResult) :
  exists world, init w res = Done world /\ entities world <> [].
Proof.
  destruct (load_cases (lit "/TLE.txt") res) as [[tles Hload]|[e Hload]].
  - destruct tles as [|t tles].
    + eexists. split.
      * unfold init, init_try, bindM at 1, lift at 1. rewrite Hload. reflexivity.
      * discriminate.
    + exists (scene_after_load w (t :: tles)). split.
      * apply init_loaded; [exact Hload | discriminate].
      * unfold scene_after_load.
        destruct (snd (sats_until_throw w (t :: tles))) as [err|].
        -- unfold interrupted_world. cbn [entities].
           intros H. apply app_eq_nil in H. destruct H as [_ H]. discriminate.
        -- unfold loaded_world. cbn [entities map app]. discriminate.
  - exists (failed_world e). split; [apply init_load_failed; exact Hload | discriminate].
Qed.

(** X16: when the source cannot be read nothing of it is shown: a rejected
    [fetch], and a response that is not ok whatever its body, leave the
    error label and the console entry of the [catch] block and nothing
    else, the label reading "Error: " and the message. *)
Theorem source_failure_shows_only_the_error {L : Libraries} (w : TimeWindow) :
  (forall e, init w (Rejected e) = Done (failed_world e))
  /\ (forall status text,
        init w (Response false status text) =
          Done (failed_world
                  (Error (lit "Failed to load /TLE.txt: " ++ Number_toString status))))
  /\ (forall e, ent_label (error_notice e) = Some (lit "Error: " ++ message e)).
Proof.
  split; [|split].
  - intros e. apply init_load_failed. reflexivity.
  - intros status text. apply init_load_failed. reflexivity.
  - intros e. reflexivity.
Qed.

(** X17: when element sets were loaded, the scene starts with one entity
    for each element set up to the first whose sampling throws, in their
    order, named and labelled with the element set's name and positioned
    by its sampled trajectory. When no sampling throws, these are all the
    element sets, and the camera flies to them and tracks the first. When
    the sampling of element set [m] throws, the entities of the first [m]
    stay, the label "Error: ..." of what it threw follows them with the
    error on the console, the element sets after it are never sampled, no
    ground track is drawn and the camera is not moved. *)
Theorem satellites_come_first {L : Libraries} (w : TimeWindow) (res : FetchResult)
    (tles : list ElementSet) :
  loadTLEsFromPublic (lit "/TLE.txt") res = Done tles ->
  tles <> [] ->
  exists world m,
    init w res = Done world
    /\ m <= length tles
    /\ Forall2 (fun e ent =>
                  ent_name ent = name e
                  /\ ent_label ent = name e
                  /\ ent_polyline ent = None
                  /\ exists trajectory,
                       sampleTrajectory w e = Done trajectory
                       /\ ent_position ent = Some trajectory)
         (firstn m tles) (firstn m (entities world))
    /\ (m = length tles ->
          flownTo world = Some (firstn m (entities world))
          /\ trackedEntity world = nth_error (entities world) 0)
    /\ (m < length tles ->
          exists e err,
            nth_error tles m = Some e
            /\ sampleTrajectory w e = Throw err
            /\ entities world = firstn m (entities world) ++ [error_notice err]
            /\ console world = [ConsoleError err]
            /\ flownTo world = None
            /\ trackedEntity world = None).
Proof.
  intros Hload Hne.
  destruct (sats_until_throw_spec w tles) as (m & Hm & Hfst & Hdone & Hend).
  exists (scene_after_load w tles), m.
  split; [apply init_loaded; assumption|].
  split; [exact Hm|].
  assert (Hsats : Forall2 (fun e ent =>
                             ent_name ent = name e
                             /\ ent_label ent = name e
                             /\ ent_polyline ent = None
                             /\ exists trajectory,
                                  sampleTrajectory w e = Done trajectory
                                  /\ ent_position ent = Some trajectory)
                    (firstn m tles) (map (satellite_entity w) (firstn m tles))).
  { apply Forall2_map_right. intros e He.
    destruct (Hdone e He) as [tr Es].
    repeat split. exists tr. split; [exact Es|].
    unfold satellite_entity. simpl. rewrite (trajectory_of_done w e Es). reflexivity. }
  assert (Hlen : length (map (satellite_entity w) (firstn m tles)) = m)
    by (rewrite length_map, length_firstn; lia).
  unfold scene_after_load.
  destruct Hend as [[Hnone Hall]|(e & err & Hsome & Hlt & Hnth & Hthrow)].
  - rewrite Hnone. unfold loaded_world. cbn [entities flownTo trackedEntity console].
    assert (Hfirst : firstn m (map (satellite_entity w) tles
                               ++ fst (tracks_until_throw w tles)
                               ++ (if snd (tracks_until_throw w tles) then []
                                   else [error_notice TypeError]))
                     = map (satellite_entity w) tles).
    { rewrite Hall. rewrite <- (length_map (satellite_entity w) tles) at 1.
      rewrite firstn_app, Nat.sub_diag, firstn_all. simpl. apply app_nil_r. }
    rewrite Hfirst. split; [|split].
    + rewrite Hall, firstn_all in Hsats. rewrite Hall, firstn_all. exact Hsats.
    + intros _. split; [reflexivity|].
      destruct tles; [congruence | reflexivity].
    + intros Hlt. lia.
  - rewrite Hsome, Hfst. unfold interrupted_world.
    cbn [entities flownTo trackedEntity console].
    assert (Hfirst : firstn m (map (satellite_entity w) (firstn m tles)
                               ++ [error_notice err])
                     = map (satellite_entity w) (firstn m tles)).
    { rewrite <- Hlen at 1. rewrite firstn_app, Nat.sub_diag, firstn_all.
      simpl. apply app_nil_r. }
    rewrite Hfirst. split; [exact Hsats|]. split; [intros Heq; lia|].
    intros _. exists e, err. repeat split; assumption.
Qed.

Lemma satellites_come_first_witness :
  exists world m,
    init (L := Fake.fake_null (Fake.decays_after 5400)) (session_window 0%Z)
      (Response true 200 Fake.iss_tle_text) = Done world
    /\ m <= length [Fake.iss_tle]
    /\ Forall2 (fun e ent =>
                  ent_name ent = name e
                  /\ ent_label ent = name e
                  /\ ent_polyline ent = None
                  /\ exists trajectory,
                       sampleTrajectory (session_window 0%Z) e = Done trajectory
                       /\ ent_position ent = Some trajectory)
         (firstn m [Fake.iss_tle]) (firstn m (entities world))
    /\ (m = length [Fake.iss_tle] ->
          flownTo world = Some (firstn m (entities world))
          /\ trackedEntity world = nth_error (entities world) 0)
    /\ (m < length [Fake.iss_tle] ->
          exists e err,
            nth_error [Fake.iss_tle] m = Some e
            /\ sampleTrajectory (L := Fake.fake_null (Fake.decays_after 5400))
                 (session_window 0%Z) e = Throw err
            /\ entities world = firstn m (entities world) ++ [error_notice err]
            /\ console world = [ConsoleError err]
            /\ flownTo world = None
            /\ trackedEntity world = None).
Proof.
  apply (@satellites_come_first (Fake.fake_null (Fake.decays_after 5400))
           (session_window 0%Z) (Response true 200 Fake.iss_tle_text) [Fake.iss_tle]).
  - vm_compute. reflexivity.
  - discriminate.
Defined.

(** X18: what was added before a throw stays. When element sets were
    loaded and the sampling of each of them completed, the scene holds
    their entities, then the ground tracks of the first [k] of them, in
    order, and, when [k] is not all of them, the label "Error: ..." for
    the [TypeError] that the ground track of element set [k] threw, with
    the error on the console; the ground tracks after it are never
    computed. *)
Theorem ground_tracks_stop_at_first_throw {L : Libraries} (w : TimeWindow)
    (res : FetchResult) (tles : list ElementSet) :
  loadTLEsFromPublic (lit "/TLE.txt") res = Done tles ->
  tles <> [] ->
  (forall e, In e tles -> exists trajectory, sampleTrajectory w e = Done trajectory) ->
  exists world k,
    init w res = Done world
    /\ k <= length tles
    /\ entities world =
         map (satellite_entity w) tles
         ++ map (ground_track_entity w) (firstn k tles)
         ++ (if k <? length tles then [error_notice TypeError] else [])
    /\ console world = (if k <? length tles then [ConsoleError TypeError] else [])
    /\ (forall j e, j < k -> nth_error tles j = Some e ->
          groundTrack w (Some (trajectory_of w e)) = Done (track_of w e))
    /\ (forall e, nth_error tles k = Some e ->
          groundTrack w (Some (trajectory_of w e)) = Throw TypeError).
Proof.
  intros Hload Hne Hall.
  destruct (tracks_until_throw_spec w tles) as (k & Hk & Hfst & Hsnd & Hdone & Hthrow).
  exists (scene_after_load w tles), k.
  split; [apply init_loaded; assumption|].
  split; [exact Hk|].
  rewrite (scene_sampled w tles Hall).
  unfold loaded_world. cbn [entities console]. rewrite Hfst, Hsnd.
  destruct (k <? length tles); simpl; auto.
Qed.

Lemma ground_tracks_stop_at_first_throw_witness :
  exists world k,
    init (L := Fake.without_projection (fun _ => true)) (session_window 0%Z)
      (Response true 200 Fake.iss_tle_text) = Done world
    /\ k <= length [Fake.iss_tle]
    /\ entities world =
         map (satellite_entity (session_window 0%Z)) [Fake.iss_tle]
         ++ map (ground_track_entity (session_window 0%Z)) (firstn k [Fake.iss_tle])
         ++ (if k <? length [Fake.iss_tle] then [error_notice TypeError] else [])
    /\ console world = (if k <? length [Fake.iss_tle] then [ConsoleError TypeError] else [])
    /\ (forall j e, j < k -> nth_error [Fake.iss_tle] j = Some e ->
          groundTrack (L := Fake.without_projection (fun _ => true)) (session_window 0%Z)
            (Some (trajectory_of (L := Fake.without_projection (fun _ => true)) (session_window 0%Z) e))
          = Done (track_of (L := Fake.without_projection (fun _ => true)) (session_window 0%Z) e))
    /\ (forall e, nth_error [Fake.iss_tle] k = Some e ->
          groundTrack (L := Fake.without_projection (fun _ => true)) (session_window 0%Z)
            (Some (trajectory_of (L := Fake.without_projection (fun _ => true)) (session_window 0%Z) e))
          = Throw TypeError).
Proof.
  apply (@ground_tracks_stop_at_first_throw (Fake.without_projection (fun _ => true))
           (session_window 0%Z) (Response true 200 Fake.iss_tle_text) [Fake.iss_tle]).
  - vm_compute. reflexivity.
  - discriminate.
  - intros e [<-|[]].
    destruct (sampleTrajectory_cases (L := Fake.without_projection (fun _ => true))
                (session_window 0%Z) Fake.iss_tle) as [Hd|[err Ht]]; [exact Hd|].
    exfalso.
    assert (Hrun : match sampleTrajectory (L := Fake.without_projection (fun _ => true))
                           (session_window 0%Z) Fake.iss_tle with
                   | Done _ => true
                   | _ => false
                   end = true) by (vm_compute; reflexivity).
    rewrite Ht in Hrun. apply diff_false_true. exact Hrun.
Defined.

(** With a projection that is undefined, the satellite stays on the globe
    beside the error label, and no ground track is drawn. *)
Example projection_failure_keeps_the_satellite :
  match init (L := Fake.without_projection (fun _ => true)) (session_window 0%Z)
          (Response true 200 Fake.iss_tle_text) with
  | Done world =>
      map ent_label (entities world)
      = [Some (lit "ISS (ZARYA)"); Some (lit "Error: undefined is not an object")]
      /\ map ent_polyline (entities world) = [None; None]
      /\ console world = [ConsoleError TypeError]
  | _ => False
  end.
Proof. vm_compute. repeat split. Qed.

(** With coordinates that [fromDegrees] refuses, the first pass of the
    sampler throws: no satellite is added, and the globe shows the
    message of the error. *)
Example refused_coordinates_show_the_error :
  match init (L := Fake.not_a_number) (session_window 0%Z)
          (Response true 200 Fake.iss_text) with
  | Done world =>
      map ent_label (entities world)
      = [Some (lit "Error: normalized result is not a number")]
      /\ flownTo world = None
      /\ console world = [ConsoleError (LibraryError (lit "DeveloperError")
                                          (lit "normalized result is not a number"))]
  | _ => False
  end.
Proof. vm_compute. repeat split. Qed.

(** With a propagation that returns [null] after 5400 s, the satellite is
    lost to the [TypeError] of the pass at 5410 s. *)
Example null_result_shows_the_error :
  match init (L := Fake.fake_null (Fake.decays_after 5400)) (session_window 0%Z)
          (Response true 200 Fake.iss_tle_text) with
  | Done world =>
      map ent_label (entities world)
      = [Some (lit "Error: undefined is not an object")]
      /\ flownTo world = None
      /\ console world = [ConsoleError TypeError]
  | _ => False
  end.
Proof. vm_compute. repeat split. Qed.

(** With a window measured one second short, the passes at 7200 s are
    not made. *)
Example one_second_short :
  match sampleTrajectory (L := Fake.drifting (fun _ => true)) (session_window 0%Z)
          Fake.iss_tle with
  | Done trajectory =>
      length trajectory = 720
      /\ match groundTrack (L := Fake.drifting (fun _ => true)) (session_window 0%Z)
                 (Some trajectory) with
         | Done track => length track = 240
         | _ => False
         end
  | _ => False
  end.
Proof. vm_compute. repeat split. Qed.

(** X19: in the session's window, which stops 2 hours after it starts
    whenever that is, the measured span is 7200 s or, falling short, 7199
    s; the sampling loop makes 721 or 720 passes and the ground-track loop
    241 or 240; so a trajectory has at most 721 samples and a ground track
    at most 241 points. *)
Theorem session_sizes {L : Libraries} (now : JulianDate) (e : ElementSet) :
  let span := secondsDifference (stop (session_window now)) (start (session_window now)) in
  (7199 <= span <= 7200)%Z
  /\ 720 <= passes 10 span <= 721
  /\ 240 <= passes 30 span <= 241
  /\ (forall trajectory,
        sampleTrajectory (session_window now) e = Done trajectory ->
        length trajectory <= 721)
  /\ (forall position track,
        groundTrack (session_window now) position = Done track ->
        length track <= 241).
Proof.
  intros span.
  pose proof (session_span now) as Hspan. fold span in Hspan.
  destruct (passes_session Hspan) as [H10 H30].
  split; [exact Hspan|]. split; [exact H10|]. split; [exact H30|]. split.
  - intros trajectory Es.
    destruct (sampleTrajectory_done (session_window now) e Es) as (-> & _ & _).
    fold span. rewrite samples_length.
    eapply Nat.le_trans; [apply filter_length_le|]. rewrite grid_length. lia.
  - intros position track Et.
    pose proof (track_length (session_window now) position Et) as Hlen.
    fold span in Hlen. lia.
Qed.

Lemma session_sizes_witness :
  exists trajectory track,
    sampleTrajectory (L := Fake.fake_null (fun _ => true)) (session_window 0%Z)
      Fake.iss_tle = Done trajectory
    /\ groundTrack (L := Fake.fake_null (fun _ => true)) (session_window 0%Z)
         (Some trajectory) = Done track
    /\ length trajectory <= 721
    /\ length track <= 241.
Proof.
  set (L := Fake.fake_null (fun _ => true)).
  set (w := session_window 0%Z).
  assert (Hrun : match sampleTrajectory (L := L) w Fake.iss_tle with
                 | Done t =>
                     match groundTrack (L := L) w (Some t) with
                     | Done _ => true
                     | _ => false
                     end
                 | _ => false
                 end = true) by (vm_compute; reflexivity).
  destruct (sampleTrajectory (L := L) w Fake.iss_tle) as [trajectory| |] eqn:Es;
    [| exfalso; apply diff_false_true; exact Hrun ..].
  destruct (groundTrack (L := L) w (Some trajectory)) as [track| |] eqn:Et;
    [| exfalso; apply diff_false_true; exact Hrun ..].
  exists trajectory, track. split; [reflexivity|]. split; [exact Et|].
  destruct (session_sizes (L := L) 0%Z Fake.iss_tle) as (_ & _ & _ & Htraj & Htrack).
  split; [exact (Htraj trajectory Es) | exact (Htrack (Some trajectory) track Et)].
Defined.

(** ** The guard of the sampling loop *)

(** X20: the test of line 118 does what it is there for when propagation
    reports "no solution" by a result without position. In the session's
    window, with a position stored at every offset up to 5400 s and a
    result without position after, the trajectory holds exactly the
    instants 0, 10, ..., 5400 after the start, once each and in this
    order (541 samples), and none past 5400 s. *)
Theorem skipped_decay_mid_window {L : Libraries} (now : JulianDate) (e : ElementSet) :
  (forall t, (0 <= t <= 5400)%Z ->
     exists p cart,
       propagate (satrec_of e) (now + t)%Z = Some {| prop_position := Some p |}
       /\ convert p (now + t)%Z = Done cart) ->
  (forall t, (5400 < t)%Z ->
     propagate (satrec_of e) (now + t)%Z = Some {| prop_position := None |}) ->
  exists trajectory,
    sampleTrajectory (session_window now) e = Done trajectory
    /\ times trajectory = grid now 10 541
    /\ length trajectory = 541
    /\ Forall (fun tm => (tm <= now + 5400)%Z) (times trajectory).
Proof.
  intros Hsolved Hskip.
  set (w := session_window now).
  assert (Hin : forall t, (0 <= t <= 5400)%Z ->
                  (exists x, sample_step w (satrec_of e) t = Done x)
                  /\ stored w (satrec_of e) t = true).
  { intros t Ht. destruct (Hsolved t Ht) as (p & cart & Ep & Ec).
    destruct (@stored_solved L w (satrec_of e) t p cart Ep Ec) as [Hs Hst].
    split; [eexists; exact Hs | exact Hst]. }
  assert (Hout : forall t, (5400 < t)%Z ->
                   (exists x, sample_step w (satrec_of e) t = Done x)
                   /\ stored w (satrec_of e) t = false).
  { intros t Ht.
    destruct (@stored_skipped L w (satrec_of e) t) as [Hs Hst].
    - unfold skipped, w, toDate, addSeconds. simpl start.
      rewrite (Hskip t Ht). reflexivity.
    - split; [eexists; exact Hs | exact Hst]. }
  eexists. split.
  - apply sampleTrajectory_complete. intros t Ht.
    destruct (Z_le_gt_dec t 5400) as [Hle|Hgt].
    + apply Hin. apply grid_within in Ht; lia.
    + apply Hout. lia.
  - fold w.
    destruct (@passes_beyond (secondsDifference (stop w) (start w)) 541) as [m ->].
    { pose proof (session_span now). unfold w. lia. }
    assert (Htimes : times (flat_map (sample_at w (satrec_of e))
                              (grid 0 10 (541 + S m))) = grid now 10 541).
    { rewrite times_samples, grid_app, filter_app.
      rewrite filter_all, filter_none.
      - rewrite app_nil_r. unfold addSeconds, w. simpl start.
        rewrite grid_map_add. f_equal. lia.
      - intros t Ht. apply grid_In in Ht. destruct Ht as (k & _ & ->).
        apply Hout. lia.
      - intros t Ht. apply grid_In in Ht. destruct Ht as (k & Hk & ->).
        apply Hin. lia. }
    split; [exact Htimes|]. split.
    + rewrite <- (length_map fst).
      fold (times (flat_map (sample_at w (satrec_of e)) (grid 0 10 (541 + S m)))).
      rewrite Htimes. apply grid_length.
    + rewrite Htimes. apply Forall_forall. intros tm Htm.
      apply grid_In in Htm. destruct Htm as (k & Hk & ->). lia.
Qed.

Lemma skipped_decay_mid_window_witness :
  exists trajectory,
    sampleTrajectory (L := Fake.fake (Fake.decays_after 5400)) (session_window 0%Z)
      Fake.iss_tle = Done trajectory
    /\ times trajectory = grid 0 10 541
    /\ length trajectory = 541
    /\ Forall (fun tm => (tm <= 0 + 5400)%Z) (times trajectory).
Proof.
  apply (@skipped_decay_mid_window (Fake.fake (Fake.decays_after 5400)) 0%Z Fake.iss_tle).
  - intros t Ht. exists t, (t, t, 400000%Z).
    simpl. unfold Fake.falsy, Fake.decays_after.
    destruct (Z.leb_spec t 5400); [|lia]. split; reflexivity.
  - intros t Ht. simpl. unfold Fake.falsy, Fake.decays_after.
    destruct (Z.leb_spec t 5400); [lia | reflexivity].
Defined.

(** X21: a result without position is skipped and the loop goes on: the
    pass at such an instant leaves the property as it is; when every
    sampled instant has either such a result or a position that the
    conversions accept, the sampler returns a trajectory whose instants
    are the sampled instants that were not skipped; and when every
    sampled instant has a result without position the trajectory is
    empty and nothing is thrown. *)
Theorem position_less_results_are_skipped {L : Libraries} (w : TimeWindow)
    (e : ElementSet) :
  let ts := grid 0 10 (passes 10 (secondsDifference (stop w) (start w))) in
  (forall t position,
      skipped w (satrec_of e) t = true ->
      sample_body w (satrec_of e) t position = Done position)
  /\ ((forall t, In t ts ->
         skipped w (satrec_of e) t = true
         \/ exists p cart,
              propagate (satrec_of e) (toDate (addSeconds (start w) t))
                = Some {| prop_position := Some p |}
              /\ convert p (addSeconds (start w) t) = Done cart) ->
      exists trajectory,
        sampleTrajectory w e = Done trajectory
        /\ times trajectory =
             map (addSeconds (start w))
               (filter (fun t => negb (skipped w (satrec_of e) t)) ts))
  /\ ((forall t, In t ts -> skipped w (satrec_of e) t = true) ->
      sampleTrajectory w e = Done []).
Proof.
  intros ts.
  assert (Hskip : forall t position,
             skipped w (satrec_of e) t = true ->
             sample_body w (satrec_of e) t position = Done position).
  { intros t position H. unfold skipped in H.
    destruct (propagate (satrec_of e) (toDate (addSeconds (start w) t)))
      as [[[p|]]|] eqn:E; try discriminate.
    apply sample_body_skip. exact E. }
  assert (Hgen : (forall t, In t ts ->
                    skipped w (satrec_of e) t = true
                    \/ exists p cart,
                         propagate (satrec_of e) (toDate (addSeconds (start w) t))
                           = Some {| prop_position := Some p |}
                         /\ convert p (addSeconds (start w) t) = Done cart) ->
                 sampleTrajectory w e = Done (flat_map (sample_at w (satrec_of e)) ts)
                 /\ filter (stored w (satrec_of e)) ts
                    = filter (fun t => negb (skipped w (satrec_of e) t)) ts).
  { intros Hall. split.
    - apply sampleTrajectory_complete. intros t Ht.
      destruct (Hall t Ht) as [Hs|(p & cart & Ep & Ec)].
      + exists []. apply (Hskip t []). exact Hs.
      + eexists. apply (proj1 (@stored_solved L w (satrec_of e) t p cart Ep Ec)).
    - apply filter_same. intros t Ht.
      destruct (Hall t Ht) as [Hs|(p & cart & Ep & Ec)].
      + rewrite (proj2 (@stored_skipped L w (satrec_of e) t Hs)), Hs. reflexivity.
      + rewrite (proj2 (@stored_solved L w (satrec_of e) t p cart Ep Ec)).
        unfold skipped. rewrite Ep. reflexivity. }
  split; [exact Hskip|]. split.
  - intros Hall. destruct (Hgen Hall) as [Es Hf].
    eexists. split; [exact Es|]. rewrite times_samples, Hf. reflexivity.
  - intros Hall.
    destruct (Hgen (fun t Ht => or_introl (Hall t Ht))) as [Es Hf]. rewrite Es.
    f_equal. apply length_zero_iff_nil.
    rewrite samples_length, Hf, filter_none; [reflexivity|].
    intros t Ht. rewrite (Hall t Ht). reflexivity.
Qed.

Lemma position_less_results_are_skipped_witness :
  sampleTrajectory (L := Fake.fake Fake.never) (session_window 0%Z) Fake.iss_tle
  = Done [].
Proof.
  apply (proj2 (proj2 (position_less_results_are_skipped (L := Fake.fake Fake.never)
                         (session_window 0%Z) Fake.iss_tle))).
  intros t _. reflexivity.
Defined.

(** X22: the sampler guards nothing else. A pass whose conversions throw
    throws what they threw, and the first pass that throws ends the
    sampler with its error: the samples stored before it are lost with
    the property, and the later instants are never propagated. *)
Theorem first_failing_pass_decides {L : Libraries} (w : TimeWindow) (e : ElementSet) :
  (forall t position p err,
      propagate (satrec_of e) (toDate (addSeconds (start w) t))
        = Some {| prop_position := Some p |} ->
      convert p (addSeconds (start w) t) = Throw err ->
      sample_body w (satrec_of e) t position = Throw err)
  /\ (forall n err,
        n < passes 10 (secondsDifference (stop w) (start w)) ->
        (forall k, k < n ->
           exists x, sample_step w (satrec_of e) (10 * Z.of_nat k) = Done x) ->
        sample_step w (satrec_of e) (10 * Z.of_nat n) = Throw err ->
        sampleTrajectory w e = Throw err).
Proof.
  split.
  - intros t position p err Ep Ec.
    rewrite (@sample_body_solved L w (satrec_of e) t position p Ep), Ec. reflexivity.
  - intros n err Hn Hbefore Hthrow. rewrite sampleTrajectory_run.
    assert (Hsplit : exists m,
               passes 10 (secondsDifference (stop w) (start w)) = n + S m)
      by (exists (passes 10 (secondsDifference (stop w) (start w)) - n - 1); lia).
    destruct Hsplit as [m ->].
    rewrite grid_app, (grid_succ _ 10 m). apply collect_first_throw.
    + intros t Ht. apply grid_In in Ht. destruct Ht as (k & Hk & ->).
      replace (0 + 10 * Z.of_nat k)%Z with (10 * Z.of_nat k)%Z by lia.
      apply Hbefore. exact Hk.
    + replace (0 + 10 * Z.of_nat n)%Z with (10 * Z.of_nat n)%Z by lia.
      exact Hthrow.
Qed.

Lemma first_failing_pass_decides_witness :
  sampleTrajectory (L := Fake.not_a_number) (session_window 0%Z) Fake.iss
  = Throw (LibraryError (lit "DeveloperError") (lit "normalized result is not a number")).
Proof.
  apply (proj2 (first_failing_pass_decides (L := Fake.not_a_number)
                  (session_window 0%Z) Fake.iss) 0).
  - vm_compute. lia.
  - intros k Hk. lia.
  - reflexivity.
Defined.
